(** * dnsbl: a DNS block list responder

    Shallow embedding of [dnsbl.py] and the properties of its wire codec.

    Python values are modelled as follows.
    - [bytes] is a list of [Byte.byte]; indexing raises [IndexError] out of
      range, slicing clamps to the buffer.
    - [str] is a list of Unicode code points; [bytes.decode()] and
      [str.encode()] are the strict UTF-8 codec.
    - Python integers are [Z]; buffer offsets and label counts, which the
      program only ever increases from zero, are [nat].
    - A raised exception is the [Raise] case of [result]; nothing in the
      program catches one except the [struct.error] inside [short].
    - The file system consulted by [os.path.exists] is a function from paths
      to booleans, and every consultation is recorded in a trace. *)

From Stdlib Require Import List ZArith NArith Lia Bool Ascii.
From Stdlib Require String.
From Stdlib Require Import Strings.Byte.
Import ListNotations.
Import String.StringSyntax.
Delimit Scope string_scope with string.

(** ** Exceptions and fallible computations *)

Inductive exn : Set :=
| StructError
| TypeError
| IndexError
| ValueError
| UnicodeDecodeError
| UnicodeEncodeError
| AttributeError.

Inductive result (A : Type) : Type :=
| Ok (a : A)
| Raise (e : exn).

Arguments Ok {A} a.
Arguments Raise {A} e.

Definition bind {A B : Type} (r : result A) (f : A -> result B) : result B :=
  match r with
  | Ok a => f a
  | Raise e => Raise e
  end.

Declare Scope py_scope.
Delimit Scope py_scope with py.
Notation "x <- c1 ;; c2" := (bind c1 (fun x => c2))
  (at level 61, c1 at next level, right associativity) : py_scope.
Notation "' pat <- c1 ;; c2" := (bind c1 (fun x => match x with pat => c2 end))
  (at level 61, pat pattern, c1 at next level, right associativity) : py_scope.
Open Scope py_scope.

Fixpoint mapM {A B : Type} (f : A -> result B) (l : list A) : result (list B) :=
  match l with
  | [] => Ok []
  | a :: l' => b <- f a ;; bs <- mapM f l' ;; Ok (b :: bs)
  end.

(** ** Bytes and strings *)

Definition bytes := list byte.
Definition str := list N.

(** An ASCII literal as a [str]. *)
Definition lit (s : String.string) : str :=
  map N_of_ascii (String.list_ascii_of_string s).

Definition dot : N := 46.
Definition newline : N := 10.
Definition slash : N := 47.
Definition dot_byte : byte := x2e.

(** [b[i]] for [i >= 0]. *)
Definition getitem (b : bytes) (i : nat) : result nat :=
  match nth_error b i with
  | Some x => Ok (Byte.to_nat x)
  | None => Raise IndexError
  end.

(** [l[lo:hi]] for [0 <= lo]: a slice never raises. *)
Definition slice {A : Type} (l : list A) (lo hi : nat) : list A :=
  firstn (hi - lo) (skipn lo l).

(** [bytes([n])]. *)
Definition bytes1 (n : nat) : result bytes :=
  match Byte.of_nat n with
  | Some b => Ok [b]
  | None => Raise ValueError
  end.

(** [s.split(sep)] for a separator of one element. *)
Fixpoint split {A : Type} (eqb : A -> A -> bool) (sep : A) (s : list A)
  : list (list A) :=
  match s with
  | [] => [[]]
  | c :: s' =>
    if eqb c sep then [] :: split eqb sep s'
    else match split eqb sep s' with
         | p :: ps => (c :: p) :: ps
         | [] => [[c]]
         end
  end.

(** [sep.join(parts)]. *)
Fixpoint join {A : Type} (sep : list A) (parts : list (list A)) : list A :=
  match parts with
  | [] => []
  | [p] => p
  | p :: ps => p ++ sep ++ join sep ps
  end.

Definition str_eqb (a b : str) : bool :=
  if list_eq_dec N.eq_dec a b then true else false.

(** ** The UTF-8 codec behind [encode()] and [decode()] *)

Definition byte_of_N (n : N) : byte :=
  match Byte.of_N n with
  | Some b => b
  | None => x00
  end.

Definition is_cont (b : byte) : bool :=
  ((0x80 <=? Byte.to_N b) && (Byte.to_N b <=? 0xBF))%N.

Definition cont_bits (b : byte) : N := (Byte.to_N b - 0x80)%N.

Definition is_surrogate (c : N) : bool :=
  ((0xD800 <=? c) && (c <=? 0xDFFF))%N.

Definition utf8_encode_cp (c : N) : result bytes :=
  if (c <? 0x80)%N then Ok [byte_of_N c]
  else if (c <? 0x800)%N then
    Ok [byte_of_N (0xC0 + c / 64); byte_of_N (0x80 + c mod 64)]%N
  else if (c <? 0x10000)%N then
    if is_surrogate c then Raise UnicodeEncodeError
    else Ok [byte_of_N (0xE0 + c / 4096);
             byte_of_N (0x80 + (c / 64) mod 64);
             byte_of_N (0x80 + c mod 64)]%N
  else if (c <? 0x110000)%N then
    Ok [byte_of_N (0xF0 + c / 262144);
        byte_of_N (0x80 + (c / 4096) mod 64);
        byte_of_N (0x80 + (c / 64) mod 64);
        byte_of_N (0x80 + c mod 64)]%N
  else Raise UnicodeEncodeError.

(** [s.encode()] *)
Fixpoint utf8_encode (s : str) : result bytes :=
  match s with
  | [] => Ok []
  | c :: s' => b <- utf8_encode_cp c ;; bs <- utf8_encode s' ;; Ok (b ++ bs)
  end.

(** [b.decode()]: strict, so overlong forms, surrogates, values above
    U+10FFFF, stray continuation bytes and truncated sequences all raise. *)
Fixpoint utf8_decode (b : bytes) : result str :=
  match b with
  | [] => Ok []
  | b0 :: r0 =>
    let n0 := Byte.to_N b0 in
    if (n0 <? 0x80)%N then
      s <- utf8_decode r0 ;; Ok (n0 :: s)
    else if ((0xC0 <=? n0) && (n0 <? 0xE0))%N then
      match r0 with
      | b1 :: r1 =>
        let c := ((n0 - 0xC0) * 64 + cont_bits b1)%N in
        if is_cont b1 && (0x80 <=? c)%N
        then s <- utf8_decode r1 ;; Ok (c :: s)
        else Raise UnicodeDecodeError
      | _ => Raise UnicodeDecodeError
      end
    else if ((0xE0 <=? n0) && (n0 <? 0xF0))%N then
      match r0 with
      | b1 :: b2 :: r2 =>
        let c := ((n0 - 0xE0) * 4096 + cont_bits b1 * 64 + cont_bits b2)%N in
        if is_cont b1 && is_cont b2 && (0x800 <=? c)%N && negb (is_surrogate c)
        then s <- utf8_decode r2 ;; Ok (c :: s)
        else Raise UnicodeDecodeError
      | _ => Raise UnicodeDecodeError
      end
    else if ((0xF0 <=? n0) && (n0 <? 0xF8))%N then
      match r0 with
      | b1 :: b2 :: b3 :: r3 =>
        let c := ((n0 - 0xF0) * 262144 + cont_bits b1 * 4096
                  + cont_bits b2 * 64 + cont_bits b3)%N in
        if is_cont b1 && is_cont b2 && is_cont b3
           && (0x10000 <=? c)%N && (c <? 0x110000)%N
        then s <- utf8_decode r3 ;; Ok (c :: s)
        else Raise UnicodeDecodeError
      | _ => Raise UnicodeDecodeError
      end
    else Raise UnicodeDecodeError
  end.

(** ** Configuration read from the environment *)

Record config : Type := {
  DNSBL_DIRECTORY : str;
  DNSBL_DOMAIN : str
}.

(** The values used when the environment sets nothing;
    [os.path.join('', 'var', 'dnsbl')] is the relative path [var/dnsbl]. *)
Definition default_config : config := {|
  DNSBL_DIRECTORY := lit "var/dnsbl"%string;
  DNSBL_DOMAIN := lit "dnsbl.gnixl.com"%string
|}.

Definition STANDARD : Z := 0x100.
Definition DNSSEC : Z := 0x20.
Definition EXPECTED : Z := Z.lor STANDARD DNSSEC.

(** ** [short] *)

Definition byte_of_Z (z : Z) : byte := byte_of_N (Z.to_N z).
Definition Z_of_byte (b : byte) : Z := Z.of_N (Byte.to_N b).

(** [struct.pack('>H', number)] on an integer; [None] is [struct.error]. *)
Definition pack_H (number : Z) : option bytes :=
  if ((0 <=? number) && (number <=? 65535))%Z
  then Some [byte_of_Z (number / 256); byte_of_Z (number mod 256)]
  else None.

(** [struct.unpack('>H', number)[0]] on bytes; [None] is [struct.error]. *)
Definition unpack_H (number : bytes) : option Z :=
  match number with
  | [hi; lo] => Some (256 * Z_of_byte hi + Z_of_byte lo)%Z
  | _ => None
  end.

(** [short] on an integer: [pack] answers, or raises [struct.error], which
    is caught, and [unpack] of an integer then raises [TypeError]. *)
Definition short_int (number : Z) : result bytes :=
  match pack_H number with
  | Some b => Ok b
  | None => Raise TypeError
  end.

(** [short] on bytes: [pack] raises [struct.error], which is caught, and
    [unpack] answers or raises [struct.error] itself. *)
Definition short_bytes (number : bytes) : result Z :=
  match unpack_H number with
  | Some n => Ok n
  | None => Raise StructError
  end.

Inductive pyobj : Type :=
| PyInt (n : Z)
| PyBytes (b : bytes).

Definition short (number : pyobj) : result pyobj :=
  match number with
  | PyInt n => b <- short_int n ;; Ok (PyBytes b)
  | PyBytes b => n <- short_bytes b ;; Ok (PyInt n)
  end.

(** ** [parse_name] *)

(** The [while] loop of [parse_name].  Every turn moves [offset] forward, so
    [length query - offset] turns are enough: with no fuel left [offset] is
    past the end and [query[offset]] raises [IndexError]. *)
Fixpoint parse_name_loop (fuel : nat) (query : bytes) (offset : nat)
    (name : list str) : result (list str * nat) :=
  match fuel with
  | O => Raise IndexError
  | S fuel' =>
    count <- getitem query offset ;;
    if Nat.eqb count 0 then Ok (name, offset)
    else
      label <- utf8_decode (slice query (offset + 1) (offset + 1 + count)) ;;
      parse_name_loop fuel' query (offset + (count + 1)) (name ++ [label])
  end.

Definition parse_name (query : bytes) : result (option str) :=
  '(name, offset) <- parse_name_loop (length query) query 0 [] ;;
  querytype <- short_bytes (slice query (offset + 1) (offset + 3)) ;;
  queryclass <- short_bytes (slice query (offset + 3) (offset + 5)) ;;
  Ok (if ((querytype =? queryclass) && (queryclass =? 1))%Z
      then Some (join [dot] name) else None).

(** ** [dnsname] *)

Definition dnsname (host_name : str) : result bytes :=
  encoded <- utf8_encode host_name ;;
  let parts := split Byte.eqb dot_byte encoded ++ [[]] in
  let lengths := map (@length byte) parts ++ [0] in
  segments <- mapM (fun i => len <- bytes1 (nth i lengths 0) ;;
                             Ok (len ++ nth i parts []))
                   (seq 0 (length parts)) ;;
  Ok (concat segments).

(** ** [standard] *)

Definition standard (flags : Z) : bool :=
  (Z.land flags (Z.lnot EXPECTED) =? 0)%Z
  && existsb (Z.eqb (Z.land flags EXPECTED)) [STANDARD; EXPECTED].

(** ** [parse] *)

Definition parse (query : bytes) : result (option str * Z) :=
  txid <- short_bytes (slice query 0 2) ;;
  flags <- short_bytes (slice query 2 4) ;;
  questions <- short_bytes (slice query 4 6) ;;
  answers <- short_bytes (slice query 6 8) ;;
  authority <- short_bytes (slice query 8 10) ;;
  additional <- short_bytes (slice query 10 12) ;;
  let query := skipn 12 query in
  if standard flags
  then parsed <- parse_name query ;; Ok (parsed, txid)
  else Ok (None, txid).

(** ** [reverse], [ipaddress], [hostname] *)

Definition reverse (ip_address : str) : str :=
  join [dot] (rev (split N.eqb dot ip_address)).

(** The characters [\d] matches in a [str] pattern: the decimal digits of
    Unicode (category Nd, Unicode 14), as runs [(first, count)]. *)
Definition decimal_runs : list (N * N) :=
  map (fun z => (z, 10%N))
    [48; 1632; 1776; 1984; 2406; 2534; 2662; 2790; 2918; 3046; 3174; 3302;
     3430; 3558; 3664; 3792; 3872; 4160; 4240; 6112; 6160; 6470; 6608; 6784;
     6800; 6992; 7088; 7232; 7248; 42528; 43216; 43264; 43472; 43504; 43600;
     44016; 65296; 66720; 68912; 69734; 69872; 69942; 70096; 70384; 70736;
     70864; 71248; 71360; 71472; 71904; 72016; 72784; 73040; 73120; 92768;
     92864; 93008; 123200; 123632; 125264; 130032]%N
  ++ [(120782, 50)]%N.

Definition isdecimal (c : N) : bool :=
  existsb (fun r => (fst r <=? c) && (c <? fst r + snd r))%N decimal_runs.

(** The longest prefix of [s] made of characters satisfying [p]. *)
Fixpoint span (p : N -> bool) (s : str) : str * str :=
  match s with
  | [] => ([], [])
  | c :: s' => if p c then let (a, b) := span p s' in (c :: a, b)
               else ([], s)
  end.

(** [\d+\.] at the head of [s]: the digits and what follows the dot.  A dot
    is no digit, so the greedy run is the only way to match. *)
Definition digits_dot (s : str) : option (str * str) :=
  match span isdecimal s with
  | ((_ :: _) as digits, c :: s') =>
    if N.eqb c dot then Some (digits, s') else None
  | _ => None
  end.

(** [PATTERN.match(host)], answering group 1.  [PATTERN] is
    [^(\d+\.\d+\.\d+\.\d+)\.DOMAIN$] with every dot of [DNSBL_DOMAIN]
    bracketed; [$] also matches before a final newline.  The domain goes into
    the pattern as it is, so this is the match of [PATTERN] for the domains
    that hold no character a regular expression reads specially
    ([plain_domain] below); the statements about [ipaddress] assume it. *)
Definition PATTERN_match (cfg : config) (host : str) : option str :=
  match digits_dot host with
  | Some (g1, r1) =>
    match digits_dot r1 with
    | Some (g2, r2) =>
      match digits_dot r2 with
      | Some (g3, r3) =>
        match digits_dot r3 with
        | Some (g4, r4) =>
          if str_eqb r4 (DNSBL_DOMAIN cfg)
             || str_eqb r4 (DNSBL_DOMAIN cfg ++ [newline])
          then Some (join [dot] [g1; g2; g3; g4])
          else None
        | None => None
        end
      | None => None
      end
    | None => None
    end
  | None => None
  end.

Definition ipaddress (cfg : config) (host : str) : option str :=
  match PATTERN_match cfg host with
  | Some group1 => Some (reverse group1)
  | None => None
  end.

Definition hostname (cfg : config) (ip_address : str) : str :=
  join [dot] [reverse ip_address; DNSBL_DOMAIN cfg].

(** ** Effects: the file system and the socket *)

Record address : Type := {
  host : str;
  port : Z;
  flowinfo : Z;
  scope_id : Z
}.

Inductive event : Type :=
| Exists (path : str)
| SendTo (data : bytes) (to : address).

(** A computation that may raise, together with the trace of what it did
    before answering or raising. *)
Definition io (A : Type) : Type := (result A * list event)%type.

Definition io_ret {A : Type} (a : A) : io A := (Ok a, []).

Definition lift {A : Type} (r : result A) : io A := (r, []).

Definition io_bind {A B : Type} (m : io A) (f : A -> io B) : io B :=
  match m with
  | (Ok a, t) => let (r, t') := f a in (r, t ++ t')
  | (Raise e, t) => (Raise e, t)
  end.

Notation "x <~ c1 ;; c2" := (io_bind c1 (fun x => c2))
  (at level 61, c1 at next level, right associativity) : py_scope.

(** [os.path.exists(path)] against the file system [fs]. *)
Definition os_path_exists (fs : str -> bool) (path : str) : io bool :=
  (Ok (fs path), [Exists path]).

(** [os.path.join(a, b)] of [posixpath]. *)
Definition os_path_join (a b : str) : str :=
  match b with
  | c :: _ =>
    if N.eqb c slash then b
    else match rev a with
         | [] => b
         | d :: _ => if N.eqb d slash then a ++ b else a ++ [slash] ++ b
         end
  | [] =>
    match rev a with
    | [] => b
    | d :: _ => if N.eqb d slash then a ++ b else a ++ [slash] ++ b
    end
  end.

(** ** [reply] *)

Definition truthy (s : option str) : bool :=
  match s with
  | Some (_ :: _) => true
  | _ => false
  end.

Definition reply (cfg : config) (fs : str -> bool) (txid : Z)
    (lookup : option str) : io bytes :=
  response <~ lift (short_int txid) ;;
  let path :=
    match lookup with
    | Some l => if truthy lookup
                then Some (os_path_join (DNSBL_DIRECTORY cfg) l) else None
    | None => None
    end in
  found <~ match path with
           | Some p => if truthy path then os_path_exists fs p
                       else io_ret false
           | None => io_ret false
           end ;;
  if (found : bool) then
    lift (flags <- short_int 0x8180 ;;
          let response := response ++ flags in
          qdcount <- short_int 0x1 ;;
          ancount <- short_int 0x1 ;;
          nscount <- short_int 0 ;;
          arcount <- short_int 0 ;;
          let response := response ++ (qdcount ++ ancount ++ nscount ++ arcount) in
          (* [dnsname(None)] would raise [AttributeError] *)
          name <- match lookup with
                  | Some l => dnsname l
                  | None => Raise AttributeError
                  end ;;
          let response := response ++ name in
          rtype <- short_int 0x1 ;;
          rclass <- short_int 0x1 ;;
          pointer <- short_int 0xc00c ;;
          Ok (response ++ (rtype ++ rclass ++ pointer)))
  else
    lift (flags <- short_int 0x8183 ;;
          Ok (response ++ flags)).

(** ** [dnsbl]: the serving loop *)

Inductive outcome : Type :=
| Exited
| Blocked
| Crashed (e : exn).

(** [inbox] holds the datagrams the socket will deliver, in order.  The loop
    ends when [loop] reaches zero, waits for ever in [recvfrom] on an empty
    inbox, and is ended by the first exception, which nothing catches. *)
Fixpoint dnsbl (cfg : config) (fs : str -> bool) (loop : Z)
    (inbox : list (bytes * address)) : outcome * list event :=
  if (0 <? loop)%Z then
    match inbox with
    | [] => (Blocked, [])
    | (datagram, sender) :: inbox' =>
      let query := firstn 512 datagram in
      match parse query with
      | Raise e => (Crashed e, [])
      | Ok (parsed, txid) =>
        match reply cfg fs txid parsed with
        | (Raise e, t) => (Crashed e, t)
        | (Ok response, t) =>
          let (o, t') := dnsbl cfg fs (loop - 1) inbox' in
          (o, t ++ SendTo response sender :: t')
        end
      end
    end
  else (Exited, []).

(** ** Vocabulary of the statements *)

Definition byte_of_nat (n : nat) : byte :=
  match Byte.of_nat n with
  | Some b => b
  | None => x00
  end.

(** One label on the wire: its length byte, then its bytes. *)
Definition framed (label : bytes) : bytes :=
  byte_of_nat (length label) :: label.

(** What the comprehension of [dnsname] builds for one part. *)
Definition frame (part : bytes) : result bytes :=
  len <- bytes1 (length part) ;; Ok (len ++ part).

(** A label a name may carry on the wire: it encodes, to at least one and
    at most 255 bytes. *)
Definition wire_label (label : str) : bool :=
  match utf8_encode label with
  | Ok b => (1 <=? length b) && (length b <=? 255)
  | Raise _ => false
  end.

(** The domain of [short]: an unsigned 16-bit integer or two bytes. *)
Definition short_domain (x : pyobj) : Prop :=
  match x with
  | PyInt n => (0 <= n <= 65535)%Z
  | PyBytes b => length b = 2
  end.

(** The two-byte big-endian rendering of a transaction id. *)
Definition be16 (n : Z) : bytes :=
  [byte_of_Z (n / 256); byte_of_Z (n mod 256)].

(** A question cut short inside its labels: whole frames, then either the
    end of the buffer or a length byte that declares more bytes than
    follow it. *)
Definition cut_short (body : bytes) : Prop :=
  exists (labels : list bytes) (tail : bytes),
    body = concat (map framed labels) ++ tail
    /\ Forall (fun l => 1 <= length l <= 255) labels
    /\ (tail = []
        \/ exists (c : byte) (partial : bytes),
             tail = c :: partial /\ length partial < Byte.to_nat c).

(** A datagram too short for the header, or one with standard flags whose
    question is cut short. *)
Definition truncated (query : bytes) : Prop :=
  length query < 12
  \/ (12 <= length query
      /\ (exists flags : Z,
             short_bytes (slice query 2 4) = Ok flags /\ standard flags = true)
      /\ cut_short (skipn 12 query)).

(** The two ways a question ends when it is cut short: at the end of the
    buffer, or at a length byte that declares more bytes than follow it. *)
Definition cut_tail (tail : bytes) : Prop :=
  tail = []
  \/ exists (c : byte) (partial : bytes),
       tail = c :: partial /\ length partial < Byte.to_nat c.

(** What the clamped slice yields for the label that was cut, if one was
    begun. *)
Definition clamped_label (tail : bytes) : list bytes :=
  match tail with
  | [] => []
  | _ :: partial => [partial]
  end.

(** The characters a regular expression reads specially: [^ $ * + ? { } [ ]
    \ | ( )].  The dot is not among them here, because the program brackets
    every dot of the domain. *)
Definition regex_special (c : N) : bool :=
  existsb (N.eqb c) [94; 36; 42; 43; 63; 123; 125; 91; 93; 92; 124; 40; 41]%N.

(** The configurations for which [PATTERN_match] is the match of the compiled
    [PATTERN]: those whose domain holds no such character. *)
Definition plain_domain (cfg : config) : bool :=
  forallb (fun c => negb (regex_special c)) (DNSBL_DOMAIN cfg).

(** The header of a query carrying one question. *)
Definition header (txid flags : Z) : bytes :=
  be16 txid ++ be16 flags ++ [x00; x01; x00; x00; x00; x00; x00; x00].

(** The reply to a name found in the store, and to anything else. *)
Definition found_reply (txid : Z) (wire : bytes) : bytes :=
  be16 txid ++ [x81; x80]
  ++ [x00; x01; x00; x01; x00; x00; x00; x00]
  ++ wire
  ++ [x00; x01; x00; x01; xc0; x0c].

Definition nxdomain_reply (txid : Z) : bytes :=
  be16 txid ++ [x81; x83].

(** A file system holding exactly one path. *)
Definition fs_only (path : str) : str -> bool :=
  fun p => str_eqb p path.

Definition localhost6 : address :=
  {| host := lit "::1"%string; port := 40000; flowinfo := 0; scope_id := 0 |}.

(** The name that asks about the address 1.2.3.4 under the configured
    domain. *)
Definition listed_name (cfg : config) : str :=
  lit "4.3.2.1."%string ++ DNSBL_DOMAIN cfg.

(** A query with one question of type A and class IN about [name]. *)
Definition query_for (txid flags : Z) (name : str) : bytes :=
  header txid flags
  ++ match dnsname name with
     | Ok wire => wire
     | Raise _ => []
     end
  ++ [x00; x01; x00; x01].

Definition example_net : str := lit "example.net"%string.
Definition mail_example_org : str := lit "mail.example.org"%string.

(** A non-empty run of decimal digits, what [\d+] matches whole. *)
Definition digits (g : str) : bool :=
  match g with
  | [] => false
  | _ :: _ => forallb isdecimal g
  end.

(** What one turn of the loop of [dnsbl] makes of a datagram: the reply it
    sends, or the exception that ends the loop. *)
Definition answer (cfg : config) (fs : str -> bool) (datagram : bytes)
  : result bytes :=
  match parse (firstn 512 datagram) with
  | Ok (parsed, txid) => fst (reply cfg fs txid parsed)
  | Raise e => Raise e
  end.

(** The datagrams a trace sent, in order. *)
Fixpoint sends (t : list event) : list (bytes * address) :=
  match t with
  | [] => []
  | SendTo data to :: t' => (data, to) :: sends t'
  | Exists _ :: t' => sends t'
  end.

(** The paths a trace looked up, in order. *)
Fixpoint lookups (t : list event) : list str :=
  match t with
  | [] => []
  | Exists path :: t' => path :: lookups t'
  | SendTo _ _ :: t' => lookups t'
  end.

(** ** Proof tools *)

Ltac Zify.zify_post_hook ::= Z.to_euclidean_division_equations.

(** Settle the comparisons of a goal by linear arithmetic. *)
Ltac settle_tests :=
  repeat match goal with
  | |- context [(?a <? ?b)%N] =>
    first [ rewrite (proj2 (N.ltb_lt a b)) by lia
          | rewrite (proj2 (N.ltb_ge a b)) by lia ]
  | |- context [(?a <=? ?b)%N] =>
    first [ rewrite (proj2 (N.leb_le a b)) by lia
          | rewrite (proj2 (N.leb_gt a b)) by lia ]
  end.

(** Turn the boolean tests among the hypotheses into propositions. *)
Ltac split_tests :=
  repeat match goal with
  | H : (_ && _) = true |- _ => apply andb_prop in H; destruct H
  | H : (_ <=? _)%N = true |- _ => apply N.leb_le in H
  | H : (_ <? _)%N = true |- _ => apply N.ltb_lt in H
  | H : negb _ = true |- _ => apply negb_true_iff in H
  end.

(** * Properties *)

(** ** Bytes and integers *)

Lemma to_N_byte_of_N (n : N) : (n < 256)%N -> Byte.to_N (byte_of_N n) = n.
Proof.
  intros Hn. unfold byte_of_N.
  destruct (Byte.of_N n) as [b|] eqn:E.
  - now apply Byte.to_of_N.
  - apply Byte.of_N_None_iff in E. lia.
Qed.

Lemma byte_of_N_to_N (b : byte) : byte_of_N (Byte.to_N b) = b.
Proof. unfold byte_of_N. now rewrite Byte.of_to_N. Qed.

Lemma to_N_lt (b : byte) : (Byte.to_N b < 256)%N.
Proof. pose proof (Byte.to_N_bounded b). lia. Qed.

Lemma Z_of_byte_range (b : byte) : (0 <= Z_of_byte b < 256)%Z.
Proof. unfold Z_of_byte. pose proof (to_N_lt b). lia. Qed.

Lemma Z_of_byte_of_Z (z : Z) : (0 <= z < 256)%Z -> Z_of_byte (byte_of_Z z) = z.
Proof.
  intros Hz. unfold Z_of_byte, byte_of_Z.
  rewrite to_N_byte_of_N by lia. lia.
Qed.

Lemma byte_of_Z_of_byte (b : byte) : byte_of_Z (Z_of_byte b) = b.
Proof.
  unfold Z_of_byte, byte_of_Z. rewrite N2Z.id. apply byte_of_N_to_N.
Qed.

Lemma to_nat_byte_of_nat (n : nat) : n <= 255 -> Byte.to_nat (byte_of_nat n) = n.
Proof.
  intros Hn. unfold byte_of_nat.
  destruct (Byte.of_nat n) as [b|] eqn:E.
  - now apply Byte.to_of_nat.
  - apply Byte.of_nat_None_iff in E. lia.
Qed.

Lemma bytes1_framed (n : nat) : n <= 255 -> bytes1 n = Ok [byte_of_nat n].
Proof.
  intros Hn. unfold bytes1, byte_of_nat.
  destruct (Byte.of_nat n) as [b|] eqn:E; [reflexivity|].
  apply Byte.of_nat_None_iff in E. lia.
Qed.

(** ** [short] *)

Lemma unpack_pack (n : Z) (b : bytes) : pack_H n = Some b -> unpack_H b = Some n.
Proof.
  unfold pack_H. destruct ((0 <=? n) && (n <=? 65535))%Z eqn:E; [|discriminate].
  intros [= <-]. apply andb_prop in E as [H0 H1].
  apply Z.leb_le in H0, H1.
  change (unpack_H [byte_of_Z (n / 256); byte_of_Z (n mod 256)])
    with (Some (256 * Z_of_byte (byte_of_Z (n / 256))
                + Z_of_byte (byte_of_Z (n mod 256)))%Z).
  rewrite !Z_of_byte_of_Z.
  - f_equal. symmetry. rewrite Z.add_comm, Z.mul_comm.
    rewrite (Z.div_mod n 256) at 1 by lia. lia.
  - apply Z.mod_pos_bound. lia.
  - split; [apply Z.div_pos; lia | apply Z.div_lt_upper_bound; lia].
Qed.

Lemma pack_unpack (b : bytes) (n : Z) : unpack_H b = Some n -> pack_H n = Some b.
Proof.
  destruct b as [|hi [|lo [|? ?]]]; try discriminate.
  change (unpack_H [hi; lo]) with (Some (256 * Z_of_byte hi + Z_of_byte lo)%Z).
  intros E.
  assert (n = 256 * Z_of_byte hi + Z_of_byte lo)%Z as -> by congruence. clear E.
  pose proof (Z_of_byte_range hi). pose proof (Z_of_byte_range lo).
  unfold pack_H.
  replace ((0 <=? 256 * Z_of_byte hi + Z_of_byte lo)
           && (256 * Z_of_byte hi + Z_of_byte lo <=? 65535))%Z with true
    by (symmetry; apply andb_true_intro; split; apply Z.leb_le; lia).
  replace ((256 * Z_of_byte hi + Z_of_byte lo) / 256)%Z with (Z_of_byte hi)
    by (apply Z.div_unique with (r := Z_of_byte lo); lia).
  replace ((256 * Z_of_byte hi + Z_of_byte lo) mod 256)%Z with (Z_of_byte lo)
    by (apply Z.mod_unique with (q := Z_of_byte hi); lia).
  now rewrite !byte_of_Z_of_byte.
Qed.

Lemma short_int_be16 (n : Z) : (0 <= n <= 65535)%Z -> short_int n = Ok (be16 n).
Proof.
  intros Hn. unfold short_int, pack_H.
  replace ((0 <=? n) && (n <=? 65535))%Z with true; [reflexivity|].
  symmetry. apply andb_true_intro. split; apply Z.leb_le; lia.
Qed.

Lemma short_bytes_range (b : bytes) (n : Z) :
  short_bytes b = Ok n -> (0 <= n <= 65535)%Z /\ b = be16 n.
Proof.
  unfold short_bytes. destruct (unpack_H b) as [m|] eqn:E; [|discriminate].
  intros [= <-]. pose proof (pack_unpack _ _ E) as P.
  unfold pack_H in P.
  destruct ((0 <=? m) && (m <=? 65535))%Z eqn:R; [|discriminate].
  apply andb_prop in R as [H0 H1]. apply Z.leb_le in H0, H1.
  injection P as <-. split; [lia | reflexivity].
Qed.


(** ** [standard] *)

Lemma land_pow2 (f k : Z) :
  (0 <= k)%Z -> Z.land f (2 ^ k) = if Z.testbit f k then (2 ^ k)%Z else 0%Z.
Proof.
  intros Hk. apply Z.bits_inj'. intros n Hn.
  rewrite Z.land_spec, Z.pow2_bits_eqb by assumption.
  destruct (Z.eqb_spec k n) as [-> | Hne].
  - destruct (Z.testbit f n); [now rewrite Z.pow2_bits_true | now rewrite Z.bits_0].
  - rewrite andb_false_r.
    destruct (Z.testbit f k); [now rewrite Z.pow2_bits_false by lia | now rewrite Z.bits_0].
Qed.

Lemma land_split (f m : Z) : f = Z.lor (Z.land f m) (Z.land f (Z.lnot m)).
Proof.
  apply Z.bits_inj'. intros n Hn.
  rewrite Z.lor_spec, !Z.land_spec, Z.lnot_spec by assumption.
  destruct (Z.testbit f n), (Z.testbit m n); reflexivity.
Qed.

Lemma land_EXPECTED (f : Z) :
  Z.land f EXPECTED
  = Z.lor (if Z.testbit f 8 then 256 else 0) (if Z.testbit f 5 then 32 else 0).
Proof.
  change EXPECTED with (Z.lor (2 ^ 8) (2 ^ 5)).
  rewrite Z.land_lor_distr_r, !land_pow2 by lia. reflexivity.
Qed.

Lemma standard_values (flags : Z) :
  standard flags = true <-> flags = 0x100%Z \/ flags = 0x120%Z.
Proof.
  split.
  - unfold standard. intros H. apply andb_prop in H as [Hout Hin].
    apply Z.eqb_eq in Hout.
    pose proof (land_split flags EXPECTED) as S.
    rewrite Hout, Z.lor_0_r in S.
    cbn [existsb] in Hin. rewrite orb_false_r in Hin.
    apply orb_prop in Hin as [Hin | Hin]; apply Z.eqb_eq in Hin;
      rewrite Hin in S; [left | right]; exact S.
  - intros [-> | ->]; reflexivity.
Qed.


(** ** The UTF-8 codec *)


Lemma Ok_inj {A : Type} (a b : A) : Ok a = Ok b -> a = b.
Proof. congruence. Qed.


Lemma decode_encode_cp (c : N) (b rest : bytes) :
  utf8_encode_cp c = Ok b ->
  utf8_decode (b ++ rest) = (s <- utf8_decode rest ;; Ok (c :: s)).
Proof.
  unfold utf8_encode_cp, is_surrogate.
  destruct (N.ltb_spec c 0x80) as [H1|H1];
    [|destruct (N.ltb_spec c 0x800) as [H2|H2];
      [|destruct (N.ltb_spec c 0x10000) as [H3|H3];
        [destruct ((0xD800 <=? c) && (c <=? 0xDFFF))%N eqn:S; [discriminate|]
        |destruct (N.ltb_spec c 0x110000) as [H4|H4]; [|discriminate]]]];
    intros E; apply Ok_inj in E; subst b;
    cbn [app utf8_decode]; unfold is_cont, cont_bits, is_surrogate;
    rewrite !to_N_byte_of_N by lia.
  - settle_tests. reflexivity.
  - settle_tests. cbn [andb].
    replace ((192 + c / 64 - 192) * 64 + (128 + c mod 64 - 128))%N with c by lia.
    settle_tests. reflexivity.
  - replace ((224 + c / 4096 - 224) * 4096 + (128 + (c / 64) mod 64 - 128) * 64
             + (128 + c mod 64 - 128))%N with c by lia.
    rewrite S. settle_tests. reflexivity.
  - replace ((240 + c / 262144 - 240) * 262144
             + (128 + (c / 4096) mod 64 - 128) * 4096
             + (128 + (c / 64) mod 64 - 128) * 64
             + (128 + c mod 64 - 128))%N with c by lia.
    settle_tests. reflexivity.
Qed.

(** Decoding undoes encoding. *)
Lemma decode_encode (s : str) (b : bytes) :
  utf8_encode s = Ok b -> utf8_decode b = Ok s.
Proof.
  revert b. induction s as [|c s IH]; intros b.
  - intros E. apply Ok_inj in E. now subst b.
  - cbn [utf8_encode].
    destruct (utf8_encode_cp c) as [bc|] eqn:Ec; [|discriminate].
    destruct (utf8_encode s) as [bs|] eqn:Es; [|discriminate].
    cbn [bind]. intros E. apply Ok_inj in E. subst b.
    rewrite (decode_encode_cp _ _ _ Ec), (IH bs eq_refl). reflexivity.
Qed.


Lemma encode_decode_bounded (n : nat) :
  forall (b : bytes) (s : str),
    length b <= n -> utf8_decode b = Ok s -> utf8_encode s = Ok b.
Proof.
  induction n as [|n IH]; intros b s Hlen.
  - destruct b; [|cbn in Hlen; lia].
    intros E. apply Ok_inj in E. now subst s.
  - destruct b as [|b0 r0]; [intros E; apply Ok_inj in E; now subst s|].
    cbn [utf8_decode]. cbv zeta. unfold is_cont, cont_bits.
    pose proof (byte_of_N_to_N b0) as B0. pose proof (to_N_lt b0) as L0.
    revert B0 L0. generalize (Byte.to_N b0) as n0. intros n0 B0 L0.
    destruct (N.ltb_spec n0 0x80) as [H1|H1].
    { destruct (utf8_decode r0) as [s0|] eqn:E0; [|discriminate].
      cbn [bind]. intros E. apply Ok_inj in E. subst s.
      cbn [utf8_encode]. unfold utf8_encode_cp. settle_tests. cbn [bind].
      rewrite (IH r0 s0) by (cbn in Hlen; lia || assumption).
      cbn [bind app]. now rewrite B0. }
    destruct ((0xC0 <=? n0) && (n0 <? 0xE0))%N eqn:T2.
    { destruct r0 as [|b1 r1]; [discriminate|].
      pose proof (byte_of_N_to_N b1) as B1. pose proof (to_N_lt b1) as L1.
      revert B1 L1. generalize (Byte.to_N b1) as n1. intros n1 B1 L1.
      match goal with |- (if ?c then _ else _) = _ -> _ =>
        destruct c eqn:C; [|discriminate] end.
      destruct (utf8_decode r1) as [s1|] eqn:E1; [|discriminate].
      cbn [bind]. intros E. apply Ok_inj in E. subst s. split_tests.
      cbn [utf8_encode]. unfold utf8_encode_cp. settle_tests. cbn [bind].
      rewrite (IH r1 s1) by (cbn in Hlen; lia || assumption).
      cbn [bind app].
      replace (192 + ((n0 - 192) * 64 + (n1 - 128)) / 64)%N with n0 by lia.
      replace (128 + ((n0 - 192) * 64 + (n1 - 128)) mod 64)%N with n1 by lia.
      now rewrite B0, B1. }
    destruct ((0xE0 <=? n0) && (n0 <? 0xF0))%N eqn:T3.
    { destruct r0 as [|b1 [|b2 r2]]; try discriminate.
      pose proof (byte_of_N_to_N b1) as B1. pose proof (to_N_lt b1) as L1.
      revert B1 L1. generalize (Byte.to_N b1) as n1. intros n1 B1 L1.
      pose proof (byte_of_N_to_N b2) as B2. pose proof (to_N_lt b2) as L2.
      revert B2 L2. generalize (Byte.to_N b2) as n2. intros n2 B2 L2.
      match goal with |- (if ?c then _ else _) = _ -> _ =>
        destruct c eqn:C; [|discriminate] end.
      destruct (utf8_decode r2) as [s2|] eqn:E2; [|discriminate].
      cbn [bind]. intros E. apply Ok_inj in E. subst s. split_tests.
      cbn [utf8_encode]. unfold utf8_encode_cp. settle_tests.
      match goal with S : is_surrogate _ = false |- _ => rewrite S end.
      cbn [bind].
      rewrite (IH r2 s2) by (cbn in Hlen; lia || assumption).
      cbn [bind app].
      set (c := ((n0 - 224) * 4096 + (n1 - 128) * 64 + (n2 - 128))%N).
      replace (224 + c / 4096)%N with n0 by (subst c; lia).
      replace (128 + (c / 64) mod 64)%N with n1 by (subst c; lia).
      replace (128 + c mod 64)%N with n2 by (subst c; lia).
      now rewrite B0, B1, B2. }
    destruct ((0xF0 <=? n0) && (n0 <? 0xF8))%N eqn:T4; [|discriminate].
    destruct r0 as [|b1 [|b2 [|b3 r3]]]; try discriminate.
    pose proof (byte_of_N_to_N b1) as B1. pose proof (to_N_lt b1) as L1.
    revert B1 L1. generalize (Byte.to_N b1) as n1. intros n1 B1 L1.
    pose proof (byte_of_N_to_N b2) as B2. pose proof (to_N_lt b2) as L2.
    revert B2 L2. generalize (Byte.to_N b2) as n2. intros n2 B2 L2.
    pose proof (byte_of_N_to_N b3) as B3. pose proof (to_N_lt b3) as L3.
    revert B3 L3. generalize (Byte.to_N b3) as n3. intros n3 B3 L3.
    match goal with |- (if ?c then _ else _) = _ -> _ =>
      destruct c eqn:C; [|discriminate] end.
    destruct (utf8_decode r3) as [s3|] eqn:E3; [|discriminate].
    cbn [bind]. intros E. apply Ok_inj in E. subst s. split_tests.
    cbn [utf8_encode]. unfold utf8_encode_cp. settle_tests. cbn [bind].
    rewrite (IH r3 s3) by (cbn in Hlen; lia || assumption).
    cbn [bind app].
    set (c := ((n0 - 240) * 262144 + (n1 - 128) * 4096
               + (n2 - 128) * 64 + (n3 - 128))%N).
    replace (240 + c / 262144)%N with n0 by (subst c; lia).
    replace (128 + (c / 4096) mod 64)%N with n1 by (subst c; lia).
    replace (128 + (c / 64) mod 64)%N with n2 by (subst c; lia).
    replace (128 + c mod 64)%N with n3 by (subst c; lia).
    now rewrite B0, B1, B2, B3.
Qed.

(** What decodes, encodes back to the same bytes. *)
Lemma encode_decode (b : bytes) (s : str) :
  utf8_decode b = Ok s -> utf8_encode s = Ok b.
Proof. apply (encode_decode_bounded (length b)). lia. Qed.

Lemma encode_app (a b : str) :
  utf8_encode (a ++ b)
  = (x <- utf8_encode a ;; y <- utf8_encode b ;; Ok (x ++ y)).
Proof.
  induction a as [|c a IH]; cbn [app utf8_encode bind].
  - now destruct (utf8_encode b).
  - destruct (utf8_encode_cp c) as [bc|]; cbn [bind]; [|reflexivity].
    rewrite IH. destruct (utf8_encode a) as [x|]; cbn [bind]; [|reflexivity].
    destruct (utf8_encode b) as [y|]; cbn [bind]; [|reflexivity].
    now rewrite app_assoc.
Qed.

Lemma encode_dot : utf8_encode_cp dot = Ok [dot_byte].
Proof. reflexivity. Qed.

(** Only the dot encodes to a dot byte. *)
Lemma encode_cp_no_dot (c : N) (b : bytes) :
  utf8_encode_cp c = Ok b -> c <> dot ->
  Forall (fun x => Byte.eqb x dot_byte = false) b.
Proof.
  assert (fresh : forall n : N, (n < 256)%N -> n <> 46%N ->
            Byte.eqb (byte_of_N n) dot_byte = false).
  { intros n Hn Hne. destruct (Byte.eqb (byte_of_N n) dot_byte) eqn:E; [|reflexivity].
    apply Byte.byte_dec_bl in E. apply (f_equal Byte.to_N) in E.
    rewrite to_N_byte_of_N in E by assumption. now elim Hne. }
  unfold utf8_encode_cp, dot. intros E Hne.
  destruct (N.ltb_spec c 0x80) as [H1|H1];
    [|destruct (N.ltb_spec c 0x800) as [H2|H2];
      [|destruct (N.ltb_spec c 0x10000) as [H3|H3];
        [destruct (is_surrogate c); [discriminate|]
        |destruct (N.ltb_spec c 0x110000) as [H4|H4]; [|discriminate]]]];
    apply Ok_inj in E; subst b; repeat constructor; apply fresh; lia.
Qed.

(** ** [split] and [join] *)

Section SplitJoin.
Context {A : Type} (eqb : A -> A -> bool) (sep : A).
Hypothesis eqb_refl : eqb sep sep = true.

Lemma split_nonnil (s : list A) : split eqb sep s <> [].
Proof.
  destruct s as [|c s]; cbn [split]; [discriminate|].
  destruct (eqb c sep); [discriminate|].
  destruct (split eqb sep s); discriminate.
Qed.

Lemma split_app_sep (a b : list A) :
  split eqb sep (a ++ sep :: b) = split eqb sep a ++ split eqb sep b.
Proof.
  induction a as [|c a IH]; cbn [app split].
  - now rewrite eqb_refl.
  - destruct (eqb c sep); rewrite IH; [reflexivity|].
    pose proof (split_nonnil a) as Hn.
    destruct (split eqb sep a) as [|p ps]; [now elim Hn | reflexivity].
Qed.

Lemma split_app_fresh (a s : list A) :
  Forall (fun x => eqb x sep = false) a ->
  split eqb sep (a ++ s)
  = match split eqb sep s with
    | p :: ps => (a ++ p) :: ps
    | [] => [a]
    end.
Proof.
  pose proof (split_nonnil s) as Hn.
  induction 1 as [|c a Hc Ha IH]; cbn [app split].
  - destruct (split eqb sep s); [now elim Hn | reflexivity].
  - rewrite Hc, IH. now destruct (split eqb sep s).
Qed.

Lemma split_piece_length (s : list A) :
  Forall (fun p => length p <= length s) (split eqb sep s).
Proof.
  induction s as [|c s IH]; cbn [split].
  - repeat constructor.
  - assert (W : Forall (fun p => length p <= length (c :: s)) (split eqb sep s)).
    { eapply Forall_impl; [|exact IH]. cbn. intros p Hp. lia. }
    destruct (eqb c sep).
    + constructor; [cbn; lia | exact W].
    + pose proof (split_nonnil s) as Hn.
      destruct (split eqb sep s) as [|p ps]; [now elim Hn|].
      inversion IH; subst. inversion W; subst.
      constructor; [cbn; lia | assumption].
Qed.

Lemma split_join_bound (m : nat) (parts : list (list A)) :
  Forall (fun p => length p <= m) parts ->
  Forall (fun p => length p <= m) (split eqb sep (join [sep] parts)).
Proof.
  induction 1 as [|p ps Hp Hps IH]; [repeat constructor; cbn; lia|].
  assert (Hsplit : Forall (fun q => length q <= m) (split eqb sep p)).
  { eapply Forall_impl; [|apply split_piece_length]. cbn. intros q Hq. lia. }
  destruct ps as [|p' ps']; [exact Hsplit|].
  change (join [sep] (p :: p' :: ps')) with (p ++ sep :: join [sep] (p' :: ps')).
  rewrite split_app_sep. apply Forall_app. split; assumption.
Qed.

(** Joining what [split] gave returns the sequence. *)
Lemma join_split (eqb_eq : forall x, eqb x sep = true -> x = sep) (s : list A) :
  join [sep] (split eqb sep s) = s.
Proof.
  induction s as [|c s IH]; [reflexivity|]. cbn [split].
  pose proof (split_nonnil s) as Hn.
  destruct (eqb c sep) eqn:E.
  - apply eqb_eq in E. subst c.
    destruct (split eqb sep s) as [|p ps]; [now elim Hn|].
    change (join [sep] ([] :: p :: ps)) with (sep :: join [sep] (p :: ps)).
    now rewrite IH.
  - destruct (split eqb sep s) as [|p ps]; [now elim Hn|].
    destruct ps as [|p' ps'].
    + cbn [join] in *. now rewrite IH.
    + change (join [sep] ((c :: p) :: p' :: ps'))
        with (c :: (p ++ sep :: join [sep] (p' :: ps'))).
      change (join [sep] (p :: p' :: ps'))
        with (p ++ sep :: join [sep] (p' :: ps')) in IH.
      now rewrite IH.
Qed.
End SplitJoin.

Lemma dot_byte_refl : Byte.eqb dot_byte dot_byte = true.
Proof. reflexivity. Qed.

Lemma dot_refl : N.eqb dot dot = true.
Proof. reflexivity. Qed.

(** ** Encoding and the dots of a name *)

Lemma encode_join (names : list str) (bs : list bytes) :
  mapM utf8_encode names = Ok bs ->
  utf8_encode (join [dot] names) = Ok (join [dot_byte] bs).
Proof.
  revert bs. induction names as [|n ns IH]; intros bs.
  - intros E. apply Ok_inj in E. now subst bs.
  - cbn [mapM].
    destruct (utf8_encode n) as [b|] eqn:En; [|discriminate].
    destruct (mapM utf8_encode ns) as [bs'|] eqn:Ens; [|discriminate].
    cbn [bind]. intros E. apply Ok_inj in E. subst bs.
    destruct ns as [|n' ns'].
    + cbn [mapM] in Ens. apply Ok_inj in Ens. subst bs'. exact En.
    + specialize (IH bs' eq_refl).
      change (join [dot] (n :: n' :: ns')) with (n ++ dot :: join [dot] (n' :: ns')).
      rewrite encode_app, En. cbn [bind utf8_encode]. rewrite encode_dot, IH.
      cbn [bind app].
      destruct bs' as [|b' bs'']; [|reflexivity].
      cbn [mapM] in Ens.
      destruct (utf8_encode n'); [|discriminate].
      destruct (mapM utf8_encode ns'); discriminate.
Qed.

(** The encoding of a name splits at its dots into the encodings of its
    labels. *)
Lemma encode_split (n : str) (enc : bytes) :
  utf8_encode n = Ok enc ->
  mapM utf8_encode (split N.eqb dot n) = Ok (split Byte.eqb dot_byte enc).
Proof.
  revert enc. induction n as [|c n IH]; intros enc.
  - intros E. apply Ok_inj in E. now subst enc.
  - cbn [utf8_encode].
    destruct (utf8_encode_cp c) as [bc|] eqn:Ec; [|discriminate].
    destruct (utf8_encode n) as [bn|] eqn:En; [|discriminate].
    cbn [bind]. intros E. apply Ok_inj in E. subst enc.
    specialize (IH bn eq_refl). cbn [split].
    pose proof (split_nonnil N.eqb dot n) as Hn.
    destruct (N.eqb_spec c dot) as [-> | Hne].
    + rewrite encode_dot in Ec. apply Ok_inj in Ec. subst bc.
      cbn [app split mapM utf8_encode bind]. rewrite dot_byte_refl, IH.
      reflexivity.
    + rewrite (split_app_fresh Byte.eqb dot_byte bc bn (encode_cp_no_dot _ _ Ec Hne)).
      destruct (split N.eqb dot n) as [|p ps]; [now elim Hn|].
      cbn [mapM] in IH |- *. cbn [utf8_encode]. rewrite Ec. cbn [bind].
      destruct (utf8_encode p) as [bp|]; [|discriminate].
      destruct (mapM utf8_encode ps) as [bps|]; [|discriminate].
      cbn [bind] in IH |- *. apply Ok_inj in IH. now rewrite <- IH.
Qed.

(** A name whose labels all encode, encodes. *)
Lemma encode_of_labels (n : str) :
  Forall (fun l => exists b, utf8_encode l = Ok b) (split N.eqb dot n) ->
  exists enc, utf8_encode n = Ok enc.
Proof.
  induction n as [|c n IH]; [now exists []|]. cbn [split utf8_encode].
  pose proof (split_nonnil N.eqb dot n) as Hn.
  destruct (N.eqb_spec c dot) as [-> | Hne].
  - intros F. inversion F as [|? ? _ F']; subst.
    destruct (IH F') as [enc ->]. rewrite encode_dot. now eexists.
  - destruct (split N.eqb dot n) as [|p ps]; [now elim Hn|].
    intros F. inversion F as [|? ? [b Eb] F']; subst.
    cbn [utf8_encode] in Eb.
    destruct (utf8_encode_cp c) as [bc|]; [|discriminate].
    destruct (utf8_encode p) as [bp|] eqn:Ep; [|discriminate].
    destruct IH as [enc ->]; [|now eexists].
    constructor; [now exists bp | exact F'].
Qed.

(** ** [dnsname] *)

Lemma mapM_indexed {B : Type} (f : nat -> bytes -> result B)
    (extra : list nat) (parts : list bytes) :
  forall pre : list bytes,
    mapM (fun i => f (nth i (map (@length byte) (pre ++ parts) ++ extra) 0)
                     (nth i (pre ++ parts) []))
         (seq (length pre) (length parts))
    = mapM (fun p => f (length p) p) parts.
Proof.
  induction parts as [|p ps IH]; intros pre; [reflexivity|].
  assert (H1 : nth (length pre) (pre ++ p :: ps) [] = p).
  { rewrite app_nth2 by lia. now rewrite Nat.sub_diag. }
  assert (H2 : nth (length pre) (map (@length byte) (pre ++ p :: ps) ++ extra) 0
               = length p).
  { rewrite map_app, <- app_assoc.
    rewrite app_nth2 by (rewrite length_map; lia).
    now rewrite length_map, Nat.sub_diag. }
  cbn [length seq mapM]. cbn beta. rewrite H1, H2.
  destruct (f (length p) p) as [b|]; cbn [bind]; [|reflexivity].
  specialize (IH (pre ++ [p])).
  rewrite length_app, <- !app_assoc in IH. cbn [app length] in IH.
  rewrite Nat.add_1_r in IH.
  now rewrite IH.
Qed.

(** The comprehension of [dnsname] frames each part with its own length. *)
Lemma dnsname_frames (host_name : str) :
  dnsname host_name
  = (encoded <- utf8_encode host_name ;;
     segments <- mapM frame (split Byte.eqb dot_byte encoded ++ [[]]) ;;
     Ok (concat segments)).
Proof.
  unfold dnsname. destruct (utf8_encode host_name) as [enc|]; [|reflexivity].
  cbn [bind].
  pose proof (mapM_indexed (fun n p => len <- bytes1 n ;; Ok (len ++ p)) [0]
                (split Byte.eqb dot_byte enc ++ [[]]) []) as M.
  cbn [app length] in M. cbv zeta. f_equal. exact M.
Qed.

Lemma mapM_frame (parts : list bytes) :
  Forall (fun p => length p <= 255) parts ->
  mapM frame parts = Ok (map framed parts).
Proof.
  induction 1 as [|p ps Hp _ IH]; [reflexivity|].
  cbn [mapM map]. unfold frame at 1. rewrite (bytes1_framed _ Hp), IH.
  reflexivity.
Qed.

(** The wire form of a name whose parts fit a length byte: the framed parts,
    then the frame of the empty part, a single zero byte. *)
Lemma dnsname_wire (host_name : str) (enc : bytes) :
  utf8_encode host_name = Ok enc ->
  Forall (fun p => length p <= 255) (split Byte.eqb dot_byte enc) ->
  dnsname host_name
  = Ok (concat (map framed (split Byte.eqb dot_byte enc)) ++ [x00]).
Proof.
  intros E F. rewrite dnsname_frames, E. cbn [bind].
  rewrite mapM_frame.
  - cbn [bind]. now rewrite map_app, concat_app.
  - apply Forall_app. split; [exact F | repeat constructor; cbn; lia].
Qed.

(** ** The label loop of [parse_name] *)

Lemma getitem_at (pre : bytes) (x : byte) (post : bytes) :
  getitem (pre ++ x :: post) (length pre) = Ok (Byte.to_nat x).
Proof.
  unfold getitem. rewrite nth_error_app2 by lia.
  now rewrite Nat.sub_diag.
Qed.

Lemma getitem_past (query : bytes) (offset : nat) :
  length query <= offset -> getitem query offset = Raise IndexError.
Proof.
  intros H. unfold getitem.
  now rewrite (proj2 (nth_error_None query offset) H).
Qed.

Lemma slice_at {A : Type} (pre : list A) (x : A) (l post : list A) :
  slice (pre ++ x :: l ++ post) (length pre + 1) (length pre + 1 + length l) = l.
Proof.
  unfold slice.
  replace (length pre + 1 + length l - (length pre + 1)) with (length l) by lia.
  replace (pre ++ x :: l ++ post) with ((pre ++ [x]) ++ l ++ post)
    by now rewrite <- app_assoc.
  rewrite skipn_app, skipn_all2 by (rewrite length_app; cbn; lia).
  rewrite length_app. cbn [length app].
  replace (length pre + 1 - (length pre + 1)) with 0 by lia.
  cbn [skipn]. rewrite firstn_app, firstn_all, Nat.sub_diag. cbn [firstn].
  now rewrite app_nil_r.
Qed.

Lemma slice_length_le {A : Type} (l : list A) (lo hi : nat) :
  length (slice l lo hi) <= hi - lo.
Proof. unfold slice. apply firstn_le_length. Qed.

(** Past the end of the buffer the loop raises, whatever fuel is left. *)
Lemma parse_name_loop_past (fuel : nat) (query : bytes) (offset : nat)
    (name : list str) :
  length query <= offset ->
  parse_name_loop fuel query offset name = Raise IndexError.
Proof.
  intros H. destruct fuel; [reflexivity|].
  cbn [parse_name_loop]. now rewrite getitem_past.
Qed.

(** The fuel never decides the answer: any two amounts that cover the rest
    of the buffer give the same result. *)
Lemma parse_name_loop_fuel (query : bytes) (fuel1 : nat) :
  forall (fuel2 offset : nat) (name : list str),
    length query <= offset + fuel1 -> length query <= offset + fuel2 ->
    parse_name_loop fuel1 query offset name
    = parse_name_loop fuel2 query offset name.
Proof.
  induction fuel1 as [|fuel1 IH]; intros fuel2 offset name H1 H2.
  - rewrite !parse_name_loop_past by lia. reflexivity.
  - destruct fuel2 as [|fuel2]; [rewrite !parse_name_loop_past by lia; reflexivity|].
    cbn [parse_name_loop].
    destruct (getitem query offset) as [count|]; cbn [bind]; [|reflexivity].
    destruct (Nat.eqb count 0); [reflexivity|].
    destruct (utf8_decode _); cbn [bind]; [|reflexivity].
    apply IH; lia.
Qed.

Lemma framed_length (l : bytes) : length (framed l) = S (length l).
Proof. reflexivity. Qed.

Lemma frames_length (labels : list bytes) :
  length labels <= length (concat (map framed labels)).
Proof.
  induction labels as [|l ls IH]; cbn [map concat length]; [lia|].
  rewrite length_app, framed_length. cbn [length]. lia.
Qed.

(** Over a run of well-formed frames the loop decodes label after label and
    arrives behind them. *)
Lemma parse_name_loop_frames (labels : list bytes) :
  forall (fuel : nat) (pre tail : bytes) (name : list str),
    Forall (fun l => 1 <= length l <= 255) labels ->
    length labels <= fuel ->
    parse_name_loop fuel (pre ++ concat (map framed labels) ++ tail)
                    (length pre) name
    = (names <- mapM utf8_decode labels ;;
       parse_name_loop (fuel - length labels)
                       (pre ++ concat (map framed labels) ++ tail)
                       (length pre + length (concat (map framed labels)))
                       (name ++ names)).
Proof.
  induction labels as [|l ls IH]; intros fuel pre tail name F Hfuel.
  - cbn [map concat length mapM bind app].
    now rewrite Nat.sub_0_r, Nat.add_0_r, app_nil_r.
  - inversion F as [|? ? Hl F']; subst.
    destruct fuel as [|fuel]; [cbn in Hfuel; lia|].
    cbn [map concat]. unfold framed at 1 3 5.
    cbn [parse_name_loop app]. rewrite <- !app_assoc. cbn [app].
    rewrite getitem_at, to_nat_byte_of_nat by lia. cbn [bind].
    destruct (Nat.eqb_spec (length l) 0) as [Z|_]; [lia|].
    rewrite slice_at. cbn [mapM].
    destruct (utf8_decode l) as [label|]; cbn [bind]; [|reflexivity].
    specialize (IH fuel (pre ++ byte_of_nat (length l) :: l) tail
                   (name ++ [label]) F').
    rewrite <- app_assoc in IH. cbn [app] in IH.
    rewrite length_app in IH. cbn [length] in IH.
    replace (length pre + (length l + 1)) with (length pre + S (length l)) by lia.
    rewrite IH by (cbn in Hfuel; lia).
    destruct (mapM utf8_decode ls) as [names|]; cbn [bind]; [|reflexivity].
    cbn [length]. rewrite length_app. cbn [length].
    rewrite <- app_assoc. cbn [app].
    f_equal. lia.
Qed.

Lemma mapM_Forall2 {A B : Type} (f : A -> result B) (l : list A) (bs : list B) :
  mapM f l = Ok bs -> Forall2 (fun a b => f a = Ok b) l bs.
Proof.
  revert bs. induction l as [|a l IH]; intros bs; cbn [mapM].
  - intros E. apply Ok_inj in E. subst bs. constructor.
  - destruct (f a) as [b|] eqn:Ea; [|discriminate].
    destruct (mapM f l) as [bs'|]; [|discriminate].
    cbn [bind]. intros E. apply Ok_inj in E. subst bs.
    constructor; [exact Ea | now apply IH].
Qed.

Lemma Forall2_mapM {A B : Type} (f : A -> result B) (l : list A) (bs : list B) :
  Forall2 (fun a b => f a = Ok b) l bs -> mapM f l = Ok bs.
Proof.
  induction 1 as [|a b l bs Ea _ IH]; [reflexivity|].
  cbn [mapM]. now rewrite Ea, IH.
Qed.

Lemma mapM_decode_encode (labels : list str) (bs : list bytes) :
  mapM utf8_encode labels = Ok bs -> mapM utf8_decode bs = Ok labels.
Proof.
  intros E. apply mapM_Forall2 in E. apply Forall2_mapM.
  induction E as [|l b ls bs El _ IH]; constructor; [|exact IH].
  now apply decode_encode.
Qed.

Lemma wire_labels_sized (labels : list str) (bs : list bytes) :
  Forall (fun label => wire_label label = true) labels ->
  mapM utf8_encode labels = Ok bs ->
  Forall (fun b => 1 <= length b <= 255) bs.
Proof.
  intros F E. apply mapM_Forall2 in E.
  induction E as [|l b ls bs El _ IH]; [constructor|].
  inversion F as [|? ? Hl F']; subst. constructor; [|now apply IH].
  unfold wire_label in Hl. rewrite El in Hl.
  apply andb_prop in Hl as [H1 H2].
  apply Nat.leb_le in H1, H2. lia.
Qed.

(** A name whose labels are fit for the wire encodes to their frames
    followed by one zero byte, and the frames hold the labels' encodings. *)
Lemma dnsname_of_wire_labels (n : str) :
  Forall (fun label => wire_label label = true) (split N.eqb dot n) ->
  exists parts : list bytes,
    dnsname n = Ok (concat (map framed parts) ++ [x00])
    /\ Forall (fun b => 1 <= length b <= 255) parts
    /\ mapM utf8_decode parts = Ok (split N.eqb dot n).
Proof.
  intros F.
  destruct (encode_of_labels n) as [enc E].
  { eapply Forall_impl; [|exact F]. cbn. intros l Hl. unfold wire_label in Hl.
    destruct (utf8_encode l) as [b|]; [now exists b | discriminate]. }
  pose proof (encode_split n enc E) as S.
  pose proof (wire_labels_sized _ _ F S) as Z.
  exists (split Byte.eqb dot_byte enc). split; [|split].
  - apply dnsname_wire; [exact E|].
    eapply Forall_impl; [|exact Z]. cbn. intros b Hb. lia.
  - exact Z.
  - now apply mapM_decode_encode.
Qed.



(** ** [reply] *)

Lemma os_path_join_truthy (a : str) (c : N) (l : str) :
  truthy (Some (os_path_join a (c :: l))) = true.
Proof.
  unfold os_path_join. destruct (N.eqb c slash); [reflexivity|].
  destruct (rev a) as [|d r]; [reflexivity|].
  destruct (N.eqb d slash); destruct a; reflexivity.
Qed.

(** What [reply] sends and which path it looks up, for a transaction id
    that fits sixteen bits. *)
Lemma reply_cases (cfg : config) (fs : str -> bool) (txid : Z)
    (lookup : option str) :
  (0 <= txid <= 65535)%Z ->
  reply cfg fs txid lookup
  = match lookup with
    | Some (c :: l) =>
      let path := os_path_join (DNSBL_DIRECTORY cfg) (c :: l) in
      if fs path
      then (wire <- dnsname (c :: l) ;; Ok (found_reply txid wire),
            [Exists path])
      else (Ok (nxdomain_reply txid), [Exists path])
    | _ => (Ok (nxdomain_reply txid), [])
    end.
Proof.
  intros Htxid. unfold reply. rewrite (short_int_be16 _ Htxid).
  cbn [lift io_bind].
  change (short_int 33152) with (Ok [x81; x80]).
  change (short_int 33155) with (Ok [x81; x83]).
  change (short_int 1) with (Ok [x00; x01]).
  change (short_int 0) with (Ok [x00; x00]).
  change (short_int 49164) with (Ok [xc0; x0c]).
  cbn [bind].
  destruct lookup as [[|c l]|]; [reflexivity | | reflexivity].
  cbv zeta. change (truthy (Some (c :: l))) with true. cbv iota.
  rewrite os_path_join_truthy. unfold os_path_exists.
  destruct (fs (os_path_join (DNSBL_DIRECTORY cfg) (c :: l))).
  - cbn [io_bind lift app].
    destruct (dnsname (c :: l)) as [wire|]; cbn [bind]; [|reflexivity].
    unfold found_reply. now rewrite <- !app_assoc.
  - reflexivity.
Qed.

(** ** [parse] *)

Lemma slice_0 {A : Type} (l : list A) (hi : nat) : slice l 0 hi = firstn hi l.
Proof. unfold slice. now rewrite Nat.sub_0_r. Qed.

Lemma parse_short_header (query : bytes) :
  length query < 12 -> parse query = Raise StructError.
Proof.
  intros H.
  do 12 (destruct query as [|? query]; [reflexivity|]).
  cbn [length] in H. lia.
Qed.

(** What a successful [parse] read: the transaction id is the first two
    bytes, and the name comes from [parse_name] under standard flags only. *)
Lemma parse_inv (query : bytes) (parsed : option str) (txid : Z) :
  parse query = Ok (parsed, txid) ->
  (0 <= txid <= 65535)%Z
  /\ firstn 2 query = be16 txid
  /\ exists flags : Z,
       short_bytes (slice query 2 4) = Ok flags
       /\ if standard flags then parse_name (skipn 12 query) = Ok parsed
          else parsed = None.
Proof.
  unfold parse.
  destruct (short_bytes (slice query 0 2)) as [t|] eqn:Et; [|discriminate].
  destruct (short_bytes (slice query 2 4)) as [flags|] eqn:Ef; [|discriminate].
  destruct (short_bytes (slice query 4 6)); [|discriminate].
  destruct (short_bytes (slice query 6 8)); [|discriminate].
  destruct (short_bytes (slice query 8 10)); [|discriminate].
  destruct (short_bytes (slice query 10 12)); [|discriminate].
  cbn [bind]. apply short_bytes_range in Et as [Rt St].
  rewrite slice_0 in St.
  destruct (standard flags) eqn:S.
  - destruct (parse_name (skipn 12 query)) as [p|] eqn:P; [|discriminate].
    cbn [bind]. intros E. apply Ok_inj in E. injection E as -> ->.
    repeat split; try assumption; try lia. exists flags. now rewrite S.
  - intros E. apply Ok_inj in E. injection E as <- ->.
    repeat split; try assumption; try lia. exists flags. now rewrite S.
Qed.

Lemma short_bytes_two (hi lo : byte) :
  short_bytes [hi; lo] = Ok (256 * Z_of_byte hi + Z_of_byte lo)%Z.
Proof. reflexivity. Qed.

(** [parse] on a buffer that holds a whole header. *)
Lemma parse_header (t1 t2 f1 f2 : byte) (counts body : bytes) :
  length counts = 8 ->
  parse (t1 :: t2 :: f1 :: f2 :: counts ++ body)
  = if standard (256 * Z_of_byte f1 + Z_of_byte f2)
    then parsed <- parse_name body ;;
         Ok (parsed, (256 * Z_of_byte t1 + Z_of_byte t2)%Z)
    else Ok (None, (256 * Z_of_byte t1 + Z_of_byte t2)%Z).
Proof.
  intros H.
  do 8 (destruct counts as [|? counts]; [discriminate|]).
  destruct counts; [|discriminate].
  reflexivity.
Qed.

(** ** Names that [parse_name] answers can be sent back *)

Lemma getitem_byte (query : bytes) (offset count : nat) :
  getitem query offset = Ok count -> count <= 255.
Proof.
  unfold getitem. destruct (nth_error query offset) as [x|]; [|discriminate].
  intros E. apply Ok_inj in E. subst count. apply Byte.to_nat_bounded.
Qed.

Lemma parse_name_loop_labels (query : bytes) (fuel : nat) :
  forall (offset : nat) (name names : list str) (final : nat),
    Forall (fun s => exists b, utf8_decode b = Ok s /\ length b <= 255) name ->
    parse_name_loop fuel query offset name = Ok (names, final) ->
    Forall (fun s => exists b, utf8_decode b = Ok s /\ length b <= 255) names.
Proof.
  induction fuel as [|fuel IH]; intros offset name names final F;
    [discriminate|].
  cbn [parse_name_loop].
  destruct (getitem query offset) as [count|] eqn:G; [|discriminate].
  cbn [bind]. destruct (Nat.eqb count 0).
  - intros E. apply Ok_inj in E. injection E as <- _. exact F.
  - destruct (utf8_decode _) as [label|] eqn:D; [|discriminate].
    cbn [bind]. apply IH. apply Forall_app. split; [exact F|].
    constructor; [|constructor].
    eexists. split; [exact D|].
    pose proof (slice_length_le query (offset + 1) (offset + 1 + count)).
    apply getitem_byte in G. lia.
Qed.

Lemma Forall_exists_Forall2 {A B : Type} (P : A -> B -> Prop) (l : list A) :
  Forall (fun a => exists b, P a b) l -> exists bs, Forall2 P l bs.
Proof.
  induction 1 as [|a l [b Hb] _ [bs IH]]; [now exists []|].
  exists (b :: bs). now constructor.
Qed.

Lemma dnsname_of_decoded (names : list str) :
  Forall (fun s => exists b, utf8_decode b = Ok s /\ length b <= 255) names ->
  exists wire, dnsname (join [dot] names) = Ok wire.
Proof.
  intros F. apply Forall_exists_Forall2 in F as [bs F].
  assert (E : mapM utf8_encode names = Ok bs).
  { apply Forall2_mapM. eapply Forall2_impl; [|exact F].
    cbn. intros s b [D _]. now apply encode_decode. }
  assert (Z : Forall (fun b => length b <= 255) bs).
  { clear E. induction F as [|s b ? ? [_ L] _ IH]; constructor; assumption. }
  eexists. apply dnsname_wire with (enc := join [dot_byte] bs).
  - now apply encode_join.
  - apply split_join_bound; [reflexivity | exact Z].
Qed.

Lemma parse_name_sendable (query : bytes) (name : str) :
  parse_name query = Ok (Some name) -> exists wire, dnsname name = Ok wire.
Proof.
  unfold parse_name.
  destruct (parse_name_loop (length query) query 0 []) as [[names final]|] eqn:L;
    [|discriminate].
  cbn [bind].
  destruct (short_bytes _) as [querytype|]; [|discriminate]. cbn [bind].
  destruct (short_bytes _) as [queryclass|]; [|discriminate]. cbn [bind].
  destruct ((querytype =? queryclass)%Z && (queryclass =? 1)%Z); [|discriminate].
  intros E. apply Ok_inj in E. injection E as <-.
  apply dnsname_of_decoded.
  eapply parse_name_loop_labels; [|exact L]. constructor.
Qed.

(** Whatever [parse] answers, [reply] turns into a datagram: the serving
    loop raises in [parse] or not at all. *)
Lemma reply_after_parse (cfg : config) (fs : str -> bool) (query : bytes)
    (parsed : option str) (txid : Z) :
  parse query = Ok (parsed, txid) ->
  exists rest : bytes,
    fst (reply cfg fs txid parsed) = Ok (be16 txid ++ rest).
Proof.
  intros P. destruct (parse_inv _ _ _ P) as (R & _ & flags & _ & Hn).
  rewrite (reply_cases cfg fs txid parsed R).
  destruct parsed as [[|c l]|]; try (now eexists).
  cbv zeta. destruct (fs _); [|now eexists].
  destruct (standard flags); [|discriminate].
  destruct (parse_name_sendable _ _ Hn) as [wire ->].
  cbn [bind fst]. unfold found_reply. now eexists.
Qed.

Lemma be16_bytes (hi lo : byte) :
  be16 (256 * Z_of_byte hi + Z_of_byte lo) = [hi; lo].
Proof.
  pose proof (pack_unpack [hi; lo] _ (eq_refl : unpack_H [hi; lo] = Some _)) as P.
  unfold pack_H in P.
  destruct ((0 <=? _) && _)%Z; [|discriminate].
  unfold be16. congruence.
Qed.

(** The loop over whole frames closed by a zero byte. *)
Lemma parse_name_loop_terminated (parts : list bytes) (rest : bytes) :
  Forall (fun b => 1 <= length b <= 255) parts ->
  parse_name_loop (length (concat (map framed parts) ++ x00 :: rest))
                  (concat (map framed parts) ++ x00 :: rest) 0 []
  = (names <- mapM utf8_decode parts ;;
     Ok (names, length (concat (map framed parts)))).
Proof.
  intros Z.
  pose proof (frames_length parts) as FL.
  pose proof (parse_name_loop_frames parts
                (length (concat (map framed parts) ++ x00 :: rest))
                [] (x00 :: rest) [] Z) as L.
  cbn [app length Nat.add] in L. rewrite L by (rewrite length_app; lia).
  destruct (mapM utf8_decode parts) as [names|]; cbn [bind app]; [|reflexivity].
  rewrite length_app. cbn [length].
  replace (length (concat (map framed parts)) + S (length rest) - length parts)
    with (S (length (concat (map framed parts)) + length rest - length parts))
    by lia.
  cbn [parse_name_loop].
  pose proof (getitem_at (concat (map framed parts)) x00 rest) as G.
  now rewrite G.
Qed.

(** [parse_name] on a whole question. *)
Lemma parse_name_question (parts : list bytes) (t1 t2 c1 c2 : byte)
    (rest : bytes) :
  Forall (fun b => 1 <= length b <= 255) parts ->
  parse_name (concat (map framed parts) ++ x00 :: t1 :: t2 :: c1 :: c2 :: rest)
  = (names <- mapM utf8_decode parts ;;
     Ok (if ((256 * Z_of_byte t1 + Z_of_byte t2
              =? 256 * Z_of_byte c1 + Z_of_byte c2)
             && (256 * Z_of_byte c1 + Z_of_byte c2 =? 1))%Z
         then Some (join [dot] names) else None)).
Proof.
  intros Z. unfold parse_name. rewrite parse_name_loop_terminated by exact Z.
  destruct (mapM utf8_decode parts) as [names|]; cbn [bind]; [|reflexivity].
  set (wire := concat (map framed parts)).
  pose proof (slice_at wire x00 [t1; t2] (c1 :: c2 :: rest)) as S1.
  pose proof (slice_at (wire ++ [x00; t1]) t2 [c1; c2] rest) as S2.
  rewrite <- app_assoc in S2. rewrite length_app in S2.
  cbn [app length] in S1, S2.
  replace (length wire + 1 + 2) with (length wire + 3) in S1 by lia.
  replace (length wire + 2 + 1) with (length wire + 3) in S2 by lia.
  replace (length wire + 3 + 2) with (length wire + 5) in S2 by lia.
  rewrite S1, S2, !short_bytes_two. reflexivity.
Qed.

(** A name fit for the wire, asked with type A and class IN, is what
    [parse_name] answers. *)
Lemma parse_name_of_dnsname (n : str) (rest : bytes) :
  Forall (fun label => wire_label label = true) (split N.eqb dot n) ->
  exists wire : bytes,
    dnsname n = Ok wire
    /\ parse_name (wire ++ [x00; x01; x00; x01] ++ rest) = Ok (Some n).
Proof.
  intros F. destruct (dnsname_of_wire_labels n F) as (parts & D & Z & M).
  eexists. split; [exact D|].
  rewrite <- app_assoc. cbn [app].
  rewrite (parse_name_question parts x00 x01 x00 x01 rest Z), M.
  cbn [bind]. change ((_ =? _)%Z && (_ =? _)%Z) with true. cbv iota.
  now rewrite (join_split N.eqb dot (fun x Hx => proj1 (N.eqb_eq x dot) Hx)).
Qed.

(** ** Truncated questions *)

Lemma utf8_decode_raises_bounded (n : nat) :
  forall (b : bytes) (e : exn),
    length b <= n -> utf8_decode b = Raise e -> e = UnicodeDecodeError.
Proof.
  induction n as [|n IH]; intros b e Hlen;
    (destruct b as [|b0 r0]; [discriminate|]); [cbn in Hlen; lia|].
  cbn [utf8_decode]. cbv zeta.
  repeat match goal with
  | |- (if ?c then _ else _) = _ -> _ => destruct c
  | |- match ?r with [] => _ | _ :: _ => _ end = _ -> _ => destruct r
  | |- bind (utf8_decode ?r) _ = _ -> _ =>
    let E := fresh "E" in
    destruct (utf8_decode r) eqn:E; cbn [bind];
    [discriminate
    |intros X; injection X as <-; eapply IH; [|exact E];
     cbn in Hlen |- *; lia]
  | |- Raise _ = Raise _ -> _ => intros X; injection X as <-; reflexivity
  end.
Qed.

Lemma mapM_decode_raises (labels : list bytes) (e : exn) :
  mapM utf8_decode labels = Raise e -> e = UnicodeDecodeError.
Proof.
  induction labels as [|l ls IH]; [discriminate|]. cbn [mapM].
  destruct (utf8_decode l) as [s|] eqn:E; cbn [bind].
  - destruct (mapM utf8_decode ls); cbn [bind]; [discriminate|].
    intros X. injection X as <-. now apply IH.
  - intros X. injection X as <-.
    now apply (utf8_decode_raises_bounded (length l) l).
Qed.

(** At a length byte that declares more than the buffer holds, the loop
    raises: the slice is clamped, and the next index lies past the end. *)
Lemma parse_name_loop_cut (fuel : nat) (pre : bytes) (c : byte)
    (partial : bytes) (name : list str) :
  length partial < Byte.to_nat c ->
  parse_name_loop fuel (pre ++ c :: partial) (length pre) name
  = Raise IndexError
  \/ parse_name_loop fuel (pre ++ c :: partial) (length pre) name
     = Raise UnicodeDecodeError.
Proof.
  intros H. destruct fuel as [|fuel]; [now left|].
  cbn [parse_name_loop]. rewrite getitem_at. cbn [bind].
  destruct (Nat.eqb_spec (Byte.to_nat c) 0) as [Z|_]; [lia|].
  destruct (utf8_decode _) as [label|] eqn:D; cbn [bind].
  - left. apply parse_name_loop_past. rewrite length_app. cbn [length]. lia.
  - right. f_equal.
    now apply (utf8_decode_raises_bounded _ _ _ (le_n _) D).
Qed.

Lemma parse_name_cut_short (body : bytes) :
  cut_short body ->
  parse_name body = Raise IndexError
  \/ parse_name body = Raise UnicodeDecodeError.
Proof.
  intros (labels & tail & -> & Z & T). unfold parse_name.
  pose proof (frames_length labels) as FL.
  pose proof (parse_name_loop_frames labels
                (length (concat (map framed labels) ++ tail)) [] tail [] Z) as L.
  cbn [app length Nat.add] in L. rewrite L by (rewrite length_app; lia).
  destruct (mapM utf8_decode labels) as [names|] eqn:M; cbn [bind].
  - destruct T as [-> | (c & partial & -> & Hc)].
    + left. rewrite parse_name_loop_past; [reflexivity|].
      rewrite app_nil_r. lia.
    + destruct (parse_name_loop_cut
                  (length (concat (map framed labels) ++ c :: partial)
                   - length labels)
                  (concat (map framed labels)) c partial names Hc) as [-> | ->];
        [now left | now right].
  - right. now rewrite (mapM_decode_raises _ _ M).
Qed.

(** Rejected flags leave the question unread. *)
Lemma parse_rejected_flags (t1 t2 f1 f2 : byte) (counts body : bytes) :
  length counts = 8 ->
  standard (256 * Z_of_byte f1 + Z_of_byte f2) = false ->
  parse (t1 :: t2 :: f1 :: f2 :: counts ++ body)
  = Ok (None, (256 * Z_of_byte t1 + Z_of_byte t2)%Z).
Proof. intros Hc Hs. now rewrite (parse_header t1 t2 f1 f2 counts body Hc), Hs. Qed.

(** A question of another type or class yields no name. *)
Lemma parse_name_unsupported (parts : list bytes) (names : list str)
    (t1 t2 c1 c2 : byte) (rest : bytes) :
  Forall (fun b => 1 <= length b <= 255) parts ->
  mapM utf8_decode parts = Ok names ->
  ~ ((256 * Z_of_byte t1 + Z_of_byte t2 = 1)%Z
     /\ (256 * Z_of_byte c1 + Z_of_byte c2 = 1)%Z) ->
  parse_name (concat (map framed parts) ++ x00 :: t1 :: t2 :: c1 :: c2 :: rest)
  = Ok None.
Proof.
  intros Z M H. rewrite (parse_name_question parts t1 t2 c1 c2 rest Z), M.
  cbn [bind].
  destruct (Z.eqb_spec (256 * Z_of_byte t1 + Z_of_byte t2)
                       (256 * Z_of_byte c1 + Z_of_byte c2)) as [E|E];
    [|reflexivity].
  destruct (Z.eqb_spec (256 * Z_of_byte c1 + Z_of_byte c2) 1) as [E1|E1];
    [|reflexivity].
  elim H. lia.
Qed.

Lemma reply_found (cfg : config) (fs : str -> bool) (txid : Z) (name : str)
    (wire : bytes) :
  (0 <= txid <= 65535)%Z -> name <> [] ->
  fs (os_path_join (DNSBL_DIRECTORY cfg) name) = true ->
  dnsname name = Ok wire ->
  reply cfg fs txid (Some name)
  = (Ok (found_reply txid wire),
     [Exists (os_path_join (DNSBL_DIRECTORY cfg) name)]).
Proof.
  intros R Hn Hfs D. rewrite (reply_cases cfg fs txid (Some name) R).
  destruct name as [|c l]; [now elim Hn|].
  cbv zeta. now rewrite Hfs, D.
Qed.

Lemma reply_not_found (cfg : config) (fs : str -> bool) (txid : Z) (name : str) :
  (0 <= txid <= 65535)%Z -> name <> [] ->
  fs (os_path_join (DNSBL_DIRECTORY cfg) name) = false ->
  reply cfg fs txid (Some name)
  = (Ok (nxdomain_reply txid),
     [Exists (os_path_join (DNSBL_DIRECTORY cfg) name)]).
Proof.
  intros R Hn Hfs. rewrite (reply_cases cfg fs txid (Some name) R).
  destruct name as [|c l]; [now elim Hn|].
  cbv zeta. now rewrite Hfs.
Qed.

Lemma reply_no_name (cfg : config) (fs : str -> bool) (txid : Z)
    (lookup : option str) :
  (0 <= txid <= 65535)%Z -> truthy lookup = false ->
  reply cfg fs txid lookup = (Ok (nxdomain_reply txid), []).
Proof.
  intros R T. rewrite (reply_cases cfg fs txid lookup R).
  destruct lookup as [[|c l]|]; [reflexivity | discriminate | reflexivity].
Qed.

(** ** The serving loop *)

Lemma dnsbl_raises (cfg : config) (fs : str -> bool) (loop : Z)
    (datagram : bytes) (sender : address) (inbox : list (bytes * address))
    (e : exn) :
  (0 < loop)%Z -> parse (firstn 512 datagram) = Raise e ->
  dnsbl cfg fs loop ((datagram, sender) :: inbox) = (Crashed e, []).
Proof.
  intros H P. cbn [dnsbl]. rewrite (proj2 (Z.ltb_lt 0 loop) H).
  cbv zeta. now rewrite P.
Qed.

(** Every datagram the loop sends answers a datagram of the inbox, to its
    sender and under its first two bytes. *)
Lemma dnsbl_sends_echo (cfg : config) (fs : str -> bool)
    (inbox : list (bytes * address)) :
  forall loop : Z,
    Forall (fun ev =>
              match ev with
              | SendTo data to =>
                exists datagram, In (datagram, to) inbox
                                 /\ firstn 2 data = firstn 2 datagram
              | Exists _ => True
              end)
           (snd (dnsbl cfg fs loop inbox)).
Proof.
  induction inbox as [|[datagram sender] inbox IH]; intros loop; cbn [dnsbl].
  - destruct (0 <? loop)%Z; constructor.
  - destruct (0 <? loop)%Z; [|constructor]. cbv zeta.
    destruct (parse (firstn 512 datagram)) as [[parsed txid]|] eqn:P;
      [|constructor].
    destruct (parse_inv _ _ _ P) as (R & T & _).
    destruct (reply_after_parse cfg fs _ _ _ P) as [rest E].
    assert (Hreply : Forall (fun ev => match ev with
                                       | SendTo _ _ => False
                                       | Exists _ => True
                                       end)
                            (snd (reply cfg fs txid parsed))).
    { rewrite (reply_cases cfg fs txid parsed R).
      destruct parsed as [[|c l]|]; cbv zeta; try constructor.
      destruct (fs _); repeat constructor. }
    destruct (reply cfg fs txid parsed) as [[response|e] t]; cbn [fst snd] in *;
      [|discriminate].
    apply Ok_inj in E. subst response.
    specialize (IH (loop - 1)%Z).
    destruct (dnsbl cfg fs (loop - 1) inbox) as [o t']. cbn [snd] in *.
    apply Forall_app. split; [|constructor].
    + eapply Forall_impl; [|exact Hreply]. intros [p|d a]; [trivial | contradiction].
    + exists datagram. split; [now left|].
      rewrite firstn_firstn in T. cbn [Nat.min] in T. rewrite T.
      unfold be16. reflexivity.
    + eapply Forall_impl; [|exact IH]. intros [p|d a]; [trivial|].
      intros (dg & Hin & Hd). exists dg. split; [now right | exact Hd].
Qed.


(** * The properties of the specification *)

(** C10: [short] undoes itself on its domain, from either side. *)
Theorem short_involutive (x : pyobj) :
  short_domain x -> (y <- short x ;; short y) = Ok x.
Proof.
  destruct x as [n | b]; cbn [short_domain short]; intros Hx.
  - unfold short_int. destruct (pack_H n) as [b|] eqn:E.
    + cbn. unfold short_bytes. now rewrite (unpack_pack _ _ E).
    + unfold pack_H in E.
      replace ((0 <=? n) && (n <=? 65535))%Z with true in E; [discriminate|].
      symmetry. apply andb_true_intro. split; apply Z.leb_le; lia.
  - destruct b as [|hi [|lo [|? ?]]]; try discriminate.
    unfold short_bytes. destruct (unpack_H [hi; lo]) as [n|] eqn:E.
    + cbn. unfold short_int. now rewrite (pack_unpack _ _ E).
    + discriminate.
Qed.

Lemma short_involutive_witness :
  (y <- short (PyInt 0xc00c) ;; short y) = Ok (PyInt 0xc00c)
  /\ (y <- short (PyBytes [x12; x34]) ;; short y) = Ok (PyBytes [x12; x34]).
Proof.
  split.
  - apply (short_involutive (PyInt 0xc00c)). simpl. lia.
  - apply (short_involutive (PyBytes [x12; x34])). reflexivity.
Defined.

(** C7: [standard] accepts exactly the flags with no bit outside
    [0x0100 | 0x0020] and with the [0x0100] bit set, which are [0x0100] and
    [0x0120]; the four flags of its doctests come out as documented. *)
Theorem standard_spec :
  (forall flags : Z,
      (standard flags = true <->
       Z.land flags (Z.lnot (Z.lor 0x100 0x20)) = 0%Z /\ Z.testbit flags 8 = true)
      /\ (standard flags = true <-> flags = 0x100%Z \/ flags = 0x120%Z))
  /\ standard 0x100 = true /\ standard 0x120 = true
  /\ standard 0x101 = false /\ standard 0x80 = false.
Proof.
  split; [|repeat split; reflexivity].
  intros flags. split; [|apply standard_values].
  rewrite standard_values. split.
  - intros [-> | ->]; split; reflexivity.
  - intros [Hout Hbit].
    pose proof (land_split flags EXPECTED) as S.
    change (Z.lor 0x100 0x20) with EXPECTED in Hout.
    rewrite Hout, Z.lor_0_r, land_EXPECTED, Hbit in S.
    destruct (Z.testbit flags 5); [right | left]; exact S.
Qed.

(** C5, as the code has it: the empty name has one part, the empty one,
    which is framed like any other part before the final zero byte. *)
Theorem dnsname_empty : dnsname [] = Ok [x00; x00].
Proof. reflexivity. Qed.

(** C5, as stated, fails: the encoding of the empty string is not the
    single zero byte. *)
Lemma dnsname_empty_not_single_zero : dnsname [] <> Ok [x00].
Proof. intros H. vm_compute in H. discriminate H. Qed.

(** C6: for a name whose dot-separated labels are non-empty and encode to at
    most 255 bytes each, [dnsname] answers the frames of the labels and a
    zero byte, and the label loop of [parse_name], run over that encoding
    followed by anything, stops at that zero byte with exactly the labels
    of the name. *)
Theorem dnsname_parse_name_roundtrip (n : str) (rest : bytes) :
  Forall (fun label => wire_label label = true) (split N.eqb dot n) ->
  exists wire : bytes,
    dnsname n = Ok (wire ++ [x00])
    /\ parse_name_loop (length (wire ++ x00 :: rest)) (wire ++ x00 :: rest) 0 []
       = Ok (split N.eqb dot n, length wire).
Proof.
  intros F. destruct (dnsname_of_wire_labels n F) as (parts & D & Z & M).
  exists (concat (map framed parts)). split; [exact D|].
  now rewrite (parse_name_loop_terminated parts rest Z), M.
Qed.

Lemma dnsname_parse_name_roundtrip_witness :
  exists wire : bytes,
    dnsname (lit "abcdef.com"%string) = Ok (wire ++ [x00])
    /\ parse_name_loop (length (wire ++ x00 :: [x00; x01; x00; x01]))
                       (wire ++ x00 :: [x00; x01; x00; x01]) 0 []
       = Ok (split N.eqb dot (lit "abcdef.com"%string), length wire).
Proof.
  apply (dnsname_parse_name_roundtrip (lit "abcdef.com"%string)
           [x00; x01; x00; x01]).
  repeat constructor.
Defined.

(** C1, as the code has it: for a datagram that yields a non-empty queried
    name, [reply] consults the store exactly once, with the path made of the
    store directory and the queried name itself, and it sends the success
    reply when the store has that path and the NXDOMAIN reply when it has
    not.  The suffix pattern of [ipaddress] plays no part. *)
Theorem reply_looks_up_queried_name (cfg : config) (fs : str -> bool)
    (query : bytes) (name : str) (txid : Z) :
  parse query = Ok (Some name, txid) -> name <> [] ->
  exists wire : bytes,
    dnsname name = Ok wire
    /\ reply cfg fs txid (Some name)
       = (Ok (if fs (os_path_join (DNSBL_DIRECTORY cfg) name)
              then found_reply txid wire
              else nxdomain_reply txid),
          [Exists (os_path_join (DNSBL_DIRECTORY cfg) name)]).
Proof.
  intros P Hn. destruct (parse_inv _ _ _ P) as (R & _ & flags & _ & Hp).
  destruct (standard flags); [|discriminate].
  destruct (parse_name_sendable _ _ Hp) as [wire D].
  exists wire. split; [exact D|].
  destruct (fs (os_path_join (DNSBL_DIRECTORY cfg) name)) eqn:F.
  - now apply reply_found.
  - now apply reply_not_found.
Qed.

Lemma reply_looks_up_queried_name_witness :
  exists wire : bytes,
    dnsname example_net = Ok wire
    /\ reply default_config (fun _ => true) 0x1234 (Some example_net)
       = (Ok (if true then found_reply 0x1234 wire else nxdomain_reply 0x1234),
          [Exists (os_path_join (DNSBL_DIRECTORY default_config) example_net)]).
Proof.
  apply (reply_looks_up_queried_name default_config (fun _ => true)
           (query_for 0x1234 0x100 example_net) example_net 0x1234).
  - vm_compute. reflexivity.
  - discriminate.
Defined.

(** C1, as stated, fails: a name outside the suffix pattern gets the success
    reply as soon as the store holds a path of that name, and the store is
    asked about the queried name, not about the address [ipaddress]
    derives. *)
Lemma success_without_suffix_match :
  ipaddress default_config example_net = None
  /\ dnsbl default_config (fs_only (lit "var/dnsbl/example.net"%string)) 1
           [(query_for 0x1234 0x100 example_net, localhost6)]
     = (Exited,
        [Exists (lit "var/dnsbl/example.net"%string);
         SendTo ([x12; x34; x81; x80;
                  x00; x01; x00; x01; x00; x00; x00; x00;
                  x07; x65; x78; x61; x6d; x70; x6c; x65;
                  x03; x6e; x65; x74; x00;
                  x00; x01; x00; x01; xc0; x0c])
                localhost6]).
Proof. split; vm_compute; reflexivity. Qed.

Lemma mapM_app {A B : Type} (f : A -> result B) (a b : list A) :
  mapM f (a ++ b) = (x <- mapM f a ;; y <- mapM f b ;; Ok (x ++ y)).
Proof.
  induction a as [|c a IH]; cbn [app mapM bind].
  - now destruct (mapM f b).
  - destruct (f c); cbn [bind]; [|reflexivity]. rewrite IH.
    destruct (mapM f a); cbn [bind]; [|reflexivity].
    now destruct (mapM f b).
Qed.

(** A slice that asks for more than the buffer holds yields what is there. *)
Lemma slice_clamped {A : Type} (pre : list A) (x : A) (l : list A) (n : nat) :
  length l <= n ->
  slice (pre ++ x :: l) (length pre + 1) (length pre + 1 + n) = l.
Proof.
  intros H. unfold slice.
  replace (pre ++ x :: l) with ((pre ++ [x]) ++ l) by now rewrite <- app_assoc.
  rewrite skipn_app, skipn_all2 by (rewrite length_app; cbn; lia).
  rewrite length_app. cbn [length app].
  replace (length pre + 1 - (length pre + 1)) with 0 by lia. cbn [skipn].
  apply firstn_all2. lia.
Qed.

(** The bytes a slice yields are bytes of the buffer, at the positions
    asked for. *)
Lemma nth_error_slice {A : Type} (l : list A) (lo hi k : nat) :
  nth_error (slice l lo hi) k
  = if Nat.ltb k (hi - lo) then nth_error l (lo + k) else None.
Proof.
  unfold slice. rewrite nth_error_firstn.
  destruct (Nat.ltb k (hi - lo)); [apply nth_error_skipn | reflexivity].
Qed.

(** An index is checked: it yields the byte at that position of the buffer,
    or raises. *)
Lemma getitem_checked (buffer : bytes) (i : nat) :
  match getitem buffer i with
  | Ok c => exists x, nth_error buffer i = Some x /\ c = Byte.to_nat x
                      /\ i < length buffer
  | Raise e => e = IndexError /\ length buffer <= i
  end.
Proof.
  unfold getitem. destruct (nth_error buffer i) as [x|] eqn:E.
  - exists x. repeat split. apply nth_error_Some. congruence.
  - split; [reflexivity | now apply nth_error_None].
Qed.

(** At a length byte that declares more than the buffer holds, the loop
    decodes the bytes that are there and then indexes past the end. *)
Lemma parse_name_loop_cut_exact (fuel : nat) (pre : bytes) (c : byte)
    (partial : bytes) (name : list str) :
  length partial < Byte.to_nat c ->
  parse_name_loop (S fuel) (pre ++ c :: partial) (length pre) name
  = Raise match utf8_decode partial with
          | Ok _ => IndexError
          | Raise _ => UnicodeDecodeError
          end.
Proof.
  intros H. cbn [parse_name_loop]. rewrite getitem_at. cbn [bind].
  destruct (Nat.eqb_spec (Byte.to_nat c) 0) as [Z|_]; [lia|].
  rewrite slice_clamped by lia.
  destruct (utf8_decode partial) as [label|] eqn:D; cbn [bind].
  - apply parse_name_loop_past. rewrite length_app. cbn [length]. lia.
  - f_equal. now apply (utf8_decode_raises_bounded _ _ _ (le_n _) D).
Qed.

(** Which exception a question cut short raises. *)
Lemma parse_name_cut_exact (labels : list bytes) (tail : bytes) :
  Forall (fun l => 1 <= length l <= 255) labels ->
  cut_tail tail ->
  parse_name (concat (map framed labels) ++ tail)
  = Raise match mapM utf8_decode (labels ++ clamped_label tail) with
          | Ok _ => IndexError
          | Raise _ => UnicodeDecodeError
          end.
Proof.
  intros Z T. unfold parse_name.
  pose proof (frames_length labels) as FL.
  pose proof (parse_name_loop_frames labels
                (length (concat (map framed labels) ++ tail)) [] tail [] Z) as L.
  cbn [app length Nat.add] in L. rewrite L by (rewrite length_app; lia).
  rewrite mapM_app.
  destruct (mapM utf8_decode labels) as [names|] eqn:M; cbn [bind];
    [|now rewrite (mapM_decode_raises _ _ M)].
  destruct T as [-> | (c & partial & -> & Hc)].
  - cbn [clamped_label mapM bind].
    rewrite parse_name_loop_past; [reflexivity|]. rewrite app_nil_r. lia.
  - cbn [clamped_label mapM].
    rewrite length_app. cbn [length].
    replace (length (concat (map framed labels)) + S (length partial)
             - length labels)
      with (S (length (concat (map framed labels)) + length partial
               - length labels)) by lia.
    rewrite (parse_name_loop_cut_exact _ _ c partial names Hc).
    now destruct (utf8_decode partial).
Qed.

(** C2, as the code has it: on a truncated datagram [parse] raises instead
    of answering.  A buffer shorter than the header raises [struct.error].
    Under standard flags a question cut short inside its labels raises
    [IndexError] when the labels read, the clamped bytes of the cut label
    among them, are all valid UTF-8, and [UnicodeDecodeError] when one of
    them is not.  The exception is caught nowhere and ends the serving loop
    before anything is sent for that datagram.  Nothing outside a buffer is
    read: an index yields the byte at that position or raises [IndexError]
    at or past the end, and a slice yields only bytes of the buffer. *)
Theorem parse_truncated_raises (query : bytes) :
  truncated query ->
  exists e : exn,
    parse query = Raise e
    /\ (length query < 12 -> e = StructError)
    /\ (forall (labels : list bytes) (tail : bytes),
          12 <= length query ->
          skipn 12 query = concat (map framed labels) ++ tail ->
          Forall (fun l => 1 <= length l <= 255) labels ->
          cut_tail tail ->
          e = match mapM utf8_decode (labels ++ clamped_label tail) with
              | Ok _ => IndexError
              | Raise _ => UnicodeDecodeError
              end)
    /\ (forall (cfg : config) (fs : str -> bool) (loop : Z) (datagram : bytes)
               (sender : address) (inbox : list (bytes * address)),
          (0 < loop)%Z -> firstn 512 datagram = query ->
          dnsbl cfg fs loop ((datagram, sender) :: inbox) = (Crashed e, []))
    /\ (forall (buffer : bytes) (i : nat),
          match getitem buffer i with
          | Ok c => exists x, nth_error buffer i = Some x
                              /\ c = Byte.to_nat x /\ i < length buffer
          | Raise e' => e' = IndexError /\ length buffer <= i
          end)
    /\ (forall (buffer : bytes) (lo hi k : nat),
          nth_error (slice buffer lo hi) k
          = if Nat.ltb k (hi - lo) then nth_error buffer (lo + k) else None).
Proof.
  intros T.
  assert (E : exists e, parse query = Raise e
                        /\ (length query < 12 -> e = StructError)
                        /\ (12 <= length query ->
                            exists e', parse_name (skipn 12 query) = Raise e'
                                       /\ e = e')).
  { destruct T as [H | (H & (flags & Ef & S) & C)].
    - exists StructError. split; [now apply parse_short_header|].
      split; [reflexivity | lia].
    - do 12 (destruct query as [|? query]; [cbn in H; lia|]).
      cbn [skipn] in C |- *.
      change (slice (?a :: ?b :: ?c :: ?d :: ?r) 2 4) with [c; d] in Ef.
      rewrite short_bytes_two in Ef. apply Ok_inj in Ef. subst flags.
      match goal with
      | |- context [parse (?t1 :: ?t2 :: ?f1 :: ?f2 :: ?c1 :: ?c2 :: ?c3 :: ?c4
                            :: ?c5 :: ?c6 :: ?c7 :: ?c8 :: ?body)] =>
        pose proof (parse_header t1 t2 f1 f2 [c1; c2; c3; c4; c5; c6; c7; c8]
                      body eq_refl) as P
      end.
      cbn [app] in P. rewrite S in P.
      destruct C as (labels & tail & -> & Z & C).
      rewrite (parse_name_cut_exact labels tail Z C) in P |- *.
      cbn [bind] in P. eexists. split; [exact P|].
      split; [cbn [length]; lia | intros _; eexists; split; reflexivity]. }
  destruct E as (e & P & Hs & Hl). exists e.
  split; [exact P|]. split; [exact Hs|]. split; [|split; [|split]].
  - intros labels tail H B Z C. destruct (Hl H) as (e' & N & ->).
    rewrite B, (parse_name_cut_exact labels tail Z C) in N. congruence.
  - intros cfg fs loop datagram sender inbox Hloop Hq.
    apply dnsbl_raises; [exact Hloop | now rewrite Hq].
  - apply getitem_checked.
  - intros buffer lo hi k. apply nth_error_slice.
Qed.

Lemma parse_truncated_raises_witness :
  exists e : exn,
    parse (header 0x1234 0x100 ++ [x03; xff; xff]) = Raise e
    /\ (length (header 0x1234 0x100 ++ [x03; xff; xff]) < 12 -> e = StructError)
    /\ (forall (labels : list bytes) (tail : bytes),
          12 <= length (header 0x1234 0x100 ++ [x03; xff; xff]) ->
          skipn 12 (header 0x1234 0x100 ++ [x03; xff; xff])
          = concat (map framed labels) ++ tail ->
          Forall (fun l => 1 <= length l <= 255) labels ->
          cut_tail tail ->
          e = match mapM utf8_decode (labels ++ clamped_label tail) with
              | Ok _ => IndexError
              | Raise _ => UnicodeDecodeError
              end)
    /\ (forall (cfg : config) (fs : str -> bool) (loop : Z) (datagram : bytes)
               (sender : address) (inbox : list (bytes * address)),
          (0 < loop)%Z ->
          firstn 512 datagram = header 0x1234 0x100 ++ [x03; xff; xff] ->
          dnsbl cfg fs loop ((datagram, sender) :: inbox) = (Crashed e, []))
    /\ (forall (buffer : bytes) (i : nat),
          match getitem buffer i with
          | Ok c => exists x, nth_error buffer i = Some x
                              /\ c = Byte.to_nat x /\ i < length buffer
          | Raise e' => e' = IndexError /\ length buffer <= i
          end)
    /\ (forall (buffer : bytes) (lo hi k : nat),
          nth_error (slice buffer lo hi) k
          = if Nat.ltb k (hi - lo) then nth_error buffer (lo + k) else None).
Proof.
  apply (parse_truncated_raises (header 0x1234 0x100 ++ [x03; xff; xff])).
  right. split; [simpl; lia|]. split.
  - exists 0x100%Z. split; reflexivity.
  - exists [], [x03; xff; xff]. split; [reflexivity|]. split; [constructor|].
    right. exists x03, [xff; xff]. split; [reflexivity | simpl; lia].
Defined.

(** C2, as stated, fails: a two-byte datagram and a query whose only label
    is cut short both make [parse] raise, and the loop stops without
    answering them or the well-formed query behind them. *)
Lemma truncated_datagram_stops_the_loop :
  parse [x12; x34] = Raise StructError
  /\ parse (header 0x1234 0x100 ++ [x03; x77; x77]) = Raise IndexError
  /\ dnsbl default_config (fun _ => false) 2
           [([x12; x34], localhost6);
            (query_for 0x1234 0x100 example_net, localhost6)]
     = (Crashed StructError, []).
Proof. repeat split; vm_compute; reflexivity. Qed.

(** C3, as the code has it: to the standard query [0x1234] about
    [4.3.2.1.<domain>] with type 1 and class 1, when the store has the path
    of that queried name, the reply is exactly [12 34], [81 80], the counts
    [00 01 00 01 00 00 00 00], the wire form of the queried name, and
    [00 01 00 01 C0 0C], with nothing behind the pointer. *)
Theorem listed_name_reply (cfg : config) (fs : str -> bool) :
  Forall (fun label => wire_label label = true)
         (split N.eqb dot (DNSBL_DOMAIN cfg)) ->
  fs (os_path_join (DNSBL_DIRECTORY cfg) (listed_name cfg)) = true ->
  exists wire : bytes,
    dnsname (listed_name cfg) = Ok wire
    /\ parse (header 0x1234 0x100 ++ wire ++ [x00; x01; x00; x01])
       = Ok (Some (listed_name cfg), 0x1234%Z)
    /\ reply cfg fs 0x1234 (Some (listed_name cfg))
       = (Ok ([x12; x34; x81; x80; x00; x01; x00; x01; x00; x00; x00; x00]
              ++ wire ++ [x00; x01; x00; x01; xc0; x0c]),
          [Exists (os_path_join (DNSBL_DIRECTORY cfg) (listed_name cfg))]).
Proof.
  intros F Hfs.
  assert (L : Forall (fun label => wire_label label = true)
                     (split N.eqb dot (listed_name cfg))).
  { change (split N.eqb dot (listed_name cfg))
      with ([[52%N]; [51%N]; [50%N]; [49%N]] ++ split N.eqb dot (DNSBL_DOMAIN cfg)).
    apply Forall_app. split; [repeat constructor | exact F]. }
  destruct (parse_name_of_dnsname (listed_name cfg) [] L) as (wire & D & P).
  exists wire. repeat split; [exact D | |].
  - pose proof (parse_header x12 x34 x01 x00
                  [x00; x01; x00; x00; x00; x00; x00; x00]
                  (wire ++ [x00; x01; x00; x01]) eq_refl) as H.
    cbn [app] in P. rewrite P in H. exact H.
  - apply (reply_found cfg fs 0x1234 (listed_name cfg) wire);
      [lia | discriminate | exact Hfs | exact D].
Qed.

Lemma listed_name_reply_witness :
  exists wire : bytes,
    dnsname (listed_name default_config) = Ok wire
    /\ parse (header 0x1234 0x100 ++ wire ++ [x00; x01; x00; x01])
       = Ok (Some (listed_name default_config), 0x1234%Z)
    /\ reply default_config
             (fs_only (lit "var/dnsbl/4.3.2.1.dnsbl.gnixl.com"%string))
             0x1234 (Some (listed_name default_config))
       = (Ok ([x12; x34; x81; x80; x00; x01; x00; x01; x00; x00; x00; x00]
              ++ wire ++ [x00; x01; x00; x01; xc0; x0c]),
          [Exists (os_path_join (DNSBL_DIRECTORY default_config)
                                (listed_name default_config))]).
Proof.
  apply (listed_name_reply default_config
           (fs_only (lit "var/dnsbl/4.3.2.1.dnsbl.gnixl.com"%string))).
  - repeat constructor.
  - vm_compute. reflexivity.
Defined.

(** C3, as stated, fails: with the address [1.2.3.4] in the store, but not
    the queried name, the reply to that query is the four bytes of
    NXDOMAIN. *)
Lemma address_in_store_is_not_found :
  ipaddress default_config (listed_name default_config)
  = Some (lit "1.2.3.4"%string)
  /\ fs_only (lit "var/dnsbl/1.2.3.4"%string)
             (os_path_join (DNSBL_DIRECTORY default_config)
                           (lit "1.2.3.4"%string)) = true
  /\ dnsbl default_config (fs_only (lit "var/dnsbl/1.2.3.4"%string)) 1
           [(query_for 0x1234 0x100 (listed_name default_config), localhost6)]
     = (Exited,
        [Exists (lit "var/dnsbl/4.3.2.1.dnsbl.gnixl.com"%string);
         SendTo [x12; x34; x81; x83] localhost6]).
Proof. repeat split; vm_compute; reflexivity. Qed.

(** C4, as the code has it: when [parse] yields no name (flags rejected, or
    type and class not both 1) or the empty name, or when the store lacks
    the path of the queried name, the reply is exactly four bytes: the first
    two bytes of the query, the echoed transaction id, then [81 83]. *)
Theorem nxdomain_reply_is_four_bytes (cfg : config) (fs : str -> bool)
    (query : bytes) (parsed : option str) (txid : Z) :
  parse query = Ok (parsed, txid) ->
  truthy parsed = false
  \/ (exists name : str,
         parsed = Some name
         /\ fs (os_path_join (DNSBL_DIRECTORY cfg) name) = false) ->
  exists t1 t2 : byte,
    firstn 2 query = [t1; t2]
    /\ txid = (256 * Z_of_byte t1 + Z_of_byte t2)%Z
    /\ fst (reply cfg fs txid parsed) = Ok [t1; t2; x81; x83].
Proof.
  intros P H. destruct (parse_inv _ _ _ P) as (R & T & _).
  pose proof (reply_cases cfg fs txid parsed R) as C.
  assert (N : fst (reply cfg fs txid parsed) = Ok (nxdomain_reply txid)).
  { rewrite C. destruct H as [H | (name & -> & H)].
    - destruct parsed as [[|c l]|]; [reflexivity | discriminate | reflexivity].
    - destruct name as [|c l]; [reflexivity|]. cbv zeta. now rewrite H. }
  exists (byte_of_Z (txid / 256)), (byte_of_Z (txid mod 256)).
  split; [exact T|]. split; [|exact N].
  pose proof (short_int_be16 txid R) as S. unfold short_int in S.
  destruct (pack_H txid) as [b|] eqn:E; [|discriminate].
  apply Ok_inj in S. subst b. apply unpack_pack in E.
  unfold be16 in E. cbn [unpack_H] in E. congruence.
Qed.

Lemma nxdomain_reply_is_four_bytes_witness :
  exists t1 t2 : byte,
    firstn 2 (query_for 0x1234 0x101 example_net) = [t1; t2]
    /\ 0x1234%Z = (256 * Z_of_byte t1 + Z_of_byte t2)%Z
    /\ fst (reply default_config (fun _ => true) 0x1234 None)
       = Ok [t1; t2; x81; x83].
Proof.
  apply (nxdomain_reply_is_four_bytes default_config (fun _ => true)
           (query_for 0x1234 0x101 example_net) None 0x1234).
  - vm_compute. reflexivity.
  - left. reflexivity.
Defined.

(** C4, as stated, fails: a queried name outside the suffix pattern, whose
    path the store holds, is answered with the long success reply. *)
Lemma unmatched_name_gets_long_reply :
  ipaddress default_config mail_example_org = None
  /\ fst (reply default_config
                (fs_only (lit "var/dnsbl/mail.example.org"%string))
                0xbeef (Some mail_example_org))
     = Ok ([xbe; xef; x81; x80;
            x00; x01; x00; x01; x00; x00; x00; x00;
            x04; x6d; x61; x69; x6c;
            x07; x65; x78; x61; x6d; x70; x6c; x65;
            x03; x6f; x72; x67; x00;
            x00; x01; x00; x01; xc0; x0c]).
Proof. split; vm_compute; reflexivity. Qed.

(** C8: whenever [parse] answers, so that the loop goes on to reply, [reply]
    produces a datagram, and its first two bytes are the first two bytes of
    the query, the big-endian transaction id, whichever branch built it. *)
Theorem reply_echoes_transaction_id (cfg : config) (fs : str -> bool)
    (query : bytes) (parsed : option str) (txid : Z) :
  parse query = Ok (parsed, txid) ->
  exists (response : bytes) (t : list event),
    reply cfg fs txid parsed = (Ok response, t)
    /\ firstn 2 query = be16 txid
    /\ firstn 2 response = firstn 2 query.
Proof.
  intros P. destruct (parse_inv _ _ _ P) as (_ & T & _).
  destruct (reply_after_parse cfg fs _ _ _ P) as [rest E].
  destruct (reply cfg fs txid parsed) as [r t]. cbn [fst] in E. subst r.
  exists (be16 txid ++ rest), t. rewrite T. repeat split.
Qed.

Lemma reply_echoes_transaction_id_witness :
  exists (response : bytes) (t : list event),
    reply default_config (fun _ => true) 0x1234 (Some example_net)
    = (Ok response, t)
    /\ firstn 2 (query_for 0x1234 0x100 example_net) = be16 0x1234
    /\ firstn 2 response = firstn 2 (query_for 0x1234 0x100 example_net).
Proof.
  apply (reply_echoes_transaction_id default_config (fun _ => true)
           (query_for 0x1234 0x100 example_net) (Some example_net) 0x1234).
  vm_compute. reflexivity.
Defined.

(** C9: a query with standard flags whose question is the root name, type 1
    and class 1, parses to the empty string; [reply] then consults no path
    and sends the four bytes of NXDOMAIN, exactly as it does for an absent
    name. *)
Theorem root_name_is_treated_as_absent (cfg : config) (fs : str -> bool)
    (t1 t2 f1 f2 : byte) (counts rest : bytes) :
  length counts = 8 ->
  standard (256 * Z_of_byte f1 + Z_of_byte f2) = true ->
  parse (t1 :: t2 :: f1 :: f2 :: counts ++ [x00; x00; x01; x00; x01] ++ rest)
  = Ok (Some [], (256 * Z_of_byte t1 + Z_of_byte t2)%Z)
  /\ reply cfg fs (256 * Z_of_byte t1 + Z_of_byte t2) (Some [])
     = (Ok [t1; t2; x81; x83], [])
  /\ reply cfg fs (256 * Z_of_byte t1 + Z_of_byte t2) (Some [])
     = reply cfg fs (256 * Z_of_byte t1 + Z_of_byte t2) None.
Proof.
  intros Hc Hs.
  pose proof (Z_of_byte_range t1). pose proof (Z_of_byte_range t2).
  assert (R : (0 <= 256 * Z_of_byte t1 + Z_of_byte t2 <= 65535)%Z) by lia.
  split; [|split].
  - rewrite (parse_header t1 t2 f1 f2 counts _ Hc), Hs.
    pose proof (parse_name_question [] x00 x01 x00 x01 rest (Forall_nil _)) as Q.
    cbn [map concat app] in Q |- *. now rewrite Q.
  - rewrite (reply_no_name cfg fs _ (Some []) R eq_refl).
    unfold nxdomain_reply. now rewrite be16_bytes.
  - now rewrite !reply_no_name.
Qed.

Lemma root_name_is_treated_as_absent_witness :
  parse (x12 :: x34 :: x01 :: x20 :: [x00; x01; x00; x00; x00; x00; x00; x00]
           ++ [x00; x00; x01; x00; x01] ++ [])
  = Ok (Some [], (256 * Z_of_byte x12 + Z_of_byte x34)%Z)
  /\ reply default_config (fun _ => true)
           (256 * Z_of_byte x12 + Z_of_byte x34) (Some [])
     = (Ok [x12; x34; x81; x83], [])
  /\ reply default_config (fun _ => true)
           (256 * Z_of_byte x12 + Z_of_byte x34) (Some [])
     = reply default_config (fun _ => true)
             (256 * Z_of_byte x12 + Z_of_byte x34) None.
Proof.
  apply (root_name_is_treated_as_absent default_config (fun _ => true)
           x12 x34 x01 x20 [x00; x01; x00; x00; x00; x00; x00; x00] []).
  - reflexivity.
  - reflexivity.
Defined.

(** * Further properties of the code *)

(** ** [split] and [join] on parts free of the separator *)

Section SplitFresh.
Context {A : Type} (eqb : A -> A -> bool) (sep : A).
Hypothesis eqb_refl : eqb sep sep = true.

Lemma split_fresh (p : list A) :
  Forall (fun x => eqb x sep = false) p -> split eqb sep p = [p].
Proof.
  intros F. pose proof (split_app_fresh eqb sep p [] F) as H.
  rewrite app_nil_r in H. cbn [split] in H. now rewrite app_nil_r in H.
Qed.

Lemma split_pieces_fresh (s : list A) :
  Forall (Forall (fun x => eqb x sep = false)) (split eqb sep s).
Proof.
  induction s as [|c s IH]; cbn [split]; [repeat constructor|].
  destruct (eqb c sep) eqn:E; [constructor; [constructor | exact IH]|].
  destruct (split eqb sep s) as [|p ps]; [repeat constructor; exact E|].
  inversion IH; subst. constructor; [constructor|]; assumption.
Qed.

Lemma split_join_fresh (parts : list (list A)) :
  parts <> [] ->
  Forall (Forall (fun x => eqb x sep = false)) parts ->
  split eqb sep (join [sep] parts) = parts.
Proof.
  intros Hn F. induction F as [|p ps Hp Hps IH]; [now elim Hn|].
  destruct ps as [|p' ps'].
  - cbn [join]. now apply split_fresh.
  - change (join [sep] (p :: p' :: ps')) with (p ++ sep :: join [sep] (p' :: ps')).
    rewrite (split_app_sep eqb sep eqb_refl), (split_fresh p Hp), IH by discriminate.
    reflexivity.
Qed.
End SplitFresh.

(** ** [reverse], [hostname] and [ipaddress] *)

Lemma reverse_join (parts : list str) :
  parts <> [] ->
  Forall (Forall (fun x => N.eqb x dot = false)) parts ->
  reverse (join [dot] parts) = join [dot] (rev parts).
Proof.
  intros Hn F. unfold reverse.
  now rewrite (split_join_fresh N.eqb dot dot_refl parts Hn F).
Qed.

Lemma reverse_reverse (s : str) : reverse (reverse s) = s.
Proof.
  unfold reverse at 2. rewrite reverse_join.
  - rewrite rev_involutive.
    apply (join_split N.eqb dot (fun x Hx => proj1 (N.eqb_eq x dot) Hx)).
  - intros E. apply (f_equal (@rev str)) in E. rewrite rev_involutive in E.
    now apply (split_nonnil N.eqb dot s).
  - apply Forall_rev. apply split_pieces_fresh.
Qed.

Lemma digits_fresh (g : str) :
  digits g = true -> Forall (fun x => N.eqb x dot = false) g.
Proof.
  intros D. assert (F : forallb isdecimal g = true) by (destruct g; [discriminate | exact D]).
  clear D. rewrite forallb_forall in F. apply Forall_forall. intros x Hx.
  destruct (N.eqb_spec x dot) as [-> | _]; [|reflexivity].
  specialize (F dot Hx). discriminate F.
Qed.

Lemma digits_nonempty (g : str) : digits g = true -> g <> [].
Proof. destruct g; [discriminate | discriminate]. Qed.

Lemma span_app (p : N -> bool) (a : str) (c : N) (r : str) :
  forallb p a = true -> p c = false -> span p (a ++ c :: r) = (a, c :: r).
Proof.
  intros Ha Hc. induction a as [|x a IH]; cbn [app span].
  - now rewrite Hc.
  - cbn [forallb] in Ha. apply andb_prop in Ha as [Hx Ha].
    now rewrite Hx, (IH Ha).
Qed.

Lemma span_inv (p : N -> bool) (s a b : str) :
  span p s = (a, b) -> s = a ++ b /\ forallb p a = true.
Proof.
  revert a b. induction s as [|x s IH]; intros a b; cbn [span].
  - intros [= <- <-]. now split.
  - destruct (p x) eqn:Hx.
    + destruct (span p s) as [a' b'] eqn:E. intros [= <- <-].
      destruct (IH a' b' eq_refl) as [-> Ha]. split; [reflexivity|].
      cbn [forallb]. now rewrite Hx, Ha.
    + intros [= <- <-]. now split.
Qed.

Lemma digits_all (g : str) : digits g = true -> forallb isdecimal g = true.
Proof. destruct g; [discriminate | trivial]. Qed.

Lemma digits_dot_app (g r : str) :
  digits g = true -> digits_dot (g ++ dot :: r) = Some (g, r).
Proof.
  intros D. unfold digits_dot.
  rewrite (span_app isdecimal g dot r (digits_all g D) eq_refl).
  destruct g as [|x g]; [discriminate|]. now rewrite dot_refl.
Qed.

Lemma digits_dot_inv (s g r : str) :
  digits_dot s = Some (g, r) -> s = g ++ dot :: r /\ digits g = true.
Proof.
  unfold digits_dot. destruct (span isdecimal s) as [a b] eqn:E.
  apply span_inv in E as [-> Ha].
  destruct a as [|x a]; [discriminate|]. destruct b as [|c b]; [discriminate|].
  destruct (N.eqb_spec c dot) as [-> | _]; [|discriminate].
  intros [= <- <-]. split; [reflexivity | exact Ha].
Qed.

Lemma str_eqb_refl (s : str) : str_eqb s s = true.
Proof. unfold str_eqb. destruct (list_eq_dec N.eq_dec s s); [reflexivity | contradiction]. Qed.

Lemma str_eqb_eq (a b : str) : str_eqb a b = true -> a = b.
Proof. unfold str_eqb. destruct (list_eq_dec N.eq_dec a b); [trivial | discriminate]. Qed.

Lemma PATTERN_match_quad (cfg : config) (g1 g2 g3 g4 : str) :
  digits g1 = true -> digits g2 = true -> digits g3 = true -> digits g4 = true ->
  PATTERN_match cfg (join [dot] [join [dot] [g1; g2; g3; g4]; DNSBL_DOMAIN cfg])
  = Some (join [dot] [g1; g2; g3; g4]).
Proof.
  intros D1 D2 D3 D4. unfold PATTERN_match. cbn [join].
  repeat (progress (rewrite <- ?app_assoc; cbn [app])).
  rewrite (digits_dot_app g1 _ D1), (digits_dot_app g2 _ D2),
          (digits_dot_app g3 _ D3), (digits_dot_app g4 _ D4).
  now rewrite str_eqb_refl.
Qed.

Lemma PATTERN_match_inv (cfg : config) (host group1 : str) :
  PATTERN_match cfg host = Some group1 ->
  exists g1 g2 g3 g4 : str,
    digits g1 = true /\ digits g2 = true /\ digits g3 = true /\ digits g4 = true
    /\ group1 = join [dot] [g1; g2; g3; g4]
    /\ (host = join [dot] [group1; DNSBL_DOMAIN cfg]
        \/ host = join [dot] [group1; DNSBL_DOMAIN cfg] ++ [newline]).
Proof.
  unfold PATTERN_match.
  destruct (digits_dot host) as [[g1 r1]|] eqn:E1; [|discriminate].
  destruct (digits_dot r1) as [[g2 r2]|] eqn:E2; [|discriminate].
  destruct (digits_dot r2) as [[g3 r3]|] eqn:E3; [|discriminate].
  destruct (digits_dot r3) as [[g4 r4]|] eqn:E4; [|discriminate].
  apply digits_dot_inv in E1 as [-> D1]. apply digits_dot_inv in E2 as [-> D2].
  apply digits_dot_inv in E3 as [-> D3]. apply digits_dot_inv in E4 as [-> D4].
  destruct (str_eqb r4 (DNSBL_DOMAIN cfg)) eqn:Ea; cbn [orb].
  - intros [= <-]. apply str_eqb_eq in Ea. subst r4.
    exists g1, g2, g3, g4. repeat split; try assumption.
    left. cbn [join]. repeat (progress (rewrite <- ?app_assoc; cbn [app])).
    reflexivity.
  - destruct (str_eqb r4 (DNSBL_DOMAIN cfg ++ [newline])) eqn:Eb; [|discriminate].
    intros [= <-]. apply str_eqb_eq in Eb. subst r4.
    exists g1, g2, g3, g4. repeat split; try assumption.
    right. cbn [join]. repeat (progress (rewrite <- ?app_assoc; cbn [app])).
    reflexivity.
Qed.

Lemma quad_fresh (g1 g2 g3 g4 : str) :
  digits g1 = true -> digits g2 = true -> digits g3 = true -> digits g4 = true ->
  Forall (Forall (fun x => N.eqb x dot = false)) [g1; g2; g3; g4].
Proof. intros. repeat constructor; now apply digits_fresh. Qed.

(** The domain used when the environment sets none is a plain one. *)
Lemma default_config_plain : plain_domain default_config = true.
Proof. reflexivity. Qed.

(** X1: [reverse] puts dot-separated groups in the opposite order. *)
Theorem reverse_groups (parts : list str) :
  parts <> [] ->
  Forall (Forall (fun x => x <> dot)) parts ->
  reverse (join [dot] parts) = join [dot] (rev parts).
Proof.
  intros Hn F. apply reverse_join; [exact Hn|].
  eapply Forall_impl; [|exact F]. intros p Hp.
  eapply Forall_impl; [|exact Hp]. intros x Hx. now apply N.eqb_neq.
Qed.

Lemma reverse_groups_witness :
  reverse (join [dot] [lit "10"%string; lit "20"%string; lit "30"%string])
  = join [dot] (rev [lit "10"%string; lit "20"%string; lit "30"%string]).
Proof.
  apply (reverse_groups [lit "10"%string; lit "20"%string; lit "30"%string]).
  - discriminate.
  - repeat constructor; discriminate.
Defined.

(** X2: [reverse] is its own inverse on every string. *)
Theorem reverse_involutive (ip_address : str) :
  reverse (reverse ip_address) = ip_address.
Proof. apply reverse_reverse. Qed.

(** X3: for a domain that holds no character a regular expression reads
    specially, [ipaddress] undoes [hostname] on every address made of four
    dot-separated non-empty runs of decimal digits, whatever their value. *)
Theorem ipaddress_hostname (cfg : config) (g1 g2 g3 g4 : str) :
  plain_domain cfg = true ->
  digits g1 = true -> digits g2 = true -> digits g3 = true -> digits g4 = true ->
  ipaddress cfg (hostname cfg (join [dot] [g1; g2; g3; g4]))
  = Some (join [dot] [g1; g2; g3; g4]).
Proof.
  intros _ D1 D2 D3 D4. unfold ipaddress, hostname.
  rewrite (reverse_join [g1; g2; g3; g4]) by
    (discriminate || now apply quad_fresh).
  cbn [rev app].
  match goal with |- context [PATTERN_match ?c ?h] =>
    replace (PATTERN_match c h) with (Some (join [dot] [g4; g3; g2; g1]))
      by (symmetry; exact (PATTERN_match_quad cfg g4 g3 g2 g1 D4 D3 D2 D1))
  end.
  rewrite (reverse_join [g4; g3; g2; g1]) by
    (discriminate || now apply quad_fresh).
  reflexivity.
Qed.

Lemma ipaddress_hostname_witness :
  ipaddress default_config
    (hostname default_config
       (join [dot] [lit "999"%string; lit "0"%string; lit "07"%string;
                    lit "1234"%string]))
  = Some (join [dot] [lit "999"%string; lit "0"%string; lit "07"%string;
                      lit "1234"%string]).
Proof.
  apply (ipaddress_hostname default_config (lit "999"%string) (lit "0"%string)
           (lit "07"%string) (lit "1234"%string)); reflexivity.
Defined.

(** X4: for a domain that holds no character a regular expression reads
    specially, when [ipaddress] answers an address, the host name was the
    [hostname] of that address, followed by at most one newline; the
    address is four non-empty runs of decimal digits. *)
Theorem ipaddress_answers_hostnames (cfg : config) (host key : str) :
  plain_domain cfg = true ->
  ipaddress cfg host = Some key ->
  (host = hostname cfg key \/ host = hostname cfg key ++ [newline])
  /\ exists g1 g2 g3 g4 : str,
       digits g1 = true /\ digits g2 = true /\ digits g3 = true
       /\ digits g4 = true /\ key = join [dot] [g1; g2; g3; g4].
Proof.
  intros _. unfold ipaddress.
  destruct (PATTERN_match cfg host) as [group1|] eqn:M; [|discriminate].
  intros [= <-].
  destruct (PATTERN_match_inv cfg host group1 M)
    as (g1 & g2 & g3 & g4 & D1 & D2 & D3 & D4 & -> & H).
  split.
  - unfold hostname. now rewrite reverse_reverse.
  - exists g4, g3, g2, g1. repeat split; try assumption.
    now rewrite (reverse_join [g1; g2; g3; g4])
      by (discriminate || now apply quad_fresh).
Qed.

Lemma ipaddress_answers_hostnames_witness :
  (lit "4.3.2.1.dnsbl.gnixl.com"%string ++ [newline]
   = hostname default_config (lit "1.2.3.4"%string)
   \/ lit "4.3.2.1.dnsbl.gnixl.com"%string ++ [newline]
      = hostname default_config (lit "1.2.3.4"%string) ++ [newline])
  /\ exists g1 g2 g3 g4 : str,
       digits g1 = true /\ digits g2 = true /\ digits g3 = true
       /\ digits g4 = true /\ lit "1.2.3.4"%string = join [dot] [g1; g2; g3; g4].
Proof.
  apply (ipaddress_answers_hostnames default_config
           (lit "4.3.2.1.dnsbl.gnixl.com"%string ++ [newline])
           (lit "1.2.3.4"%string)).
  - reflexivity.
  - vm_compute. reflexivity.
Defined.

(** ** The domain of [short] *)

(** X5: [short] answers exactly on its domain, turning an integer into two
    bytes and two bytes into an integer of sixteen bits; any other integer
    raises [TypeError] and any other byte string [struct.error]. *)
Theorem short_answers_on_domain (x : pyobj) :
  (short_domain x ->
   exists y : pyobj,
     short x = Ok y /\ short_domain y
     /\ match x, y with
        | PyInt _, PyBytes _ | PyBytes _, PyInt _ => True
        | _, _ => False
        end)
  /\ (~ short_domain x ->
      short x = Raise match x with
                      | PyInt _ => TypeError
                      | PyBytes _ => StructError
                      end).
Proof.
  destruct x as [n | b]; cbn [short_domain short]; split.
  - intros R. rewrite (short_int_be16 n R). cbn [bind].
    eexists. repeat split.
  - intros R. unfold short_int, pack_H.
    destruct ((0 <=? n) && (n <=? 65535))%Z eqn:E; [|reflexivity].
    apply andb_prop in E as [H0 H1]. apply Z.leb_le in H0, H1. elim R. lia.
  - intros L. destruct b as [|hi [|lo [|? ?]]]; try discriminate.
    rewrite short_bytes_two. cbn [bind]. eexists. repeat split.
    + pose proof (Z_of_byte_range hi). pose proof (Z_of_byte_range lo). lia.
    + pose proof (Z_of_byte_range hi). pose proof (Z_of_byte_range lo). lia.
  - intros L. destruct b as [|hi [|lo [|? ?]]]; try reflexivity.
    now elim L.
Qed.

(** ** The limits of [dnsname] *)

Lemma frame_long (p : bytes) : 255 < length p -> frame p = Raise ValueError.
Proof.
  intros H. unfold frame, bytes1.
  now rewrite (proj2 (Byte.of_nat_None_iff (length p)) H).
Qed.

Lemma mapM_frame_cases (parts : list bytes) :
  (Forall (fun p => length p <= 255) parts
   /\ mapM frame parts = Ok (map framed parts))
  \/ (List.Exists (fun p => 255 < length p) parts
      /\ mapM frame parts = Raise ValueError).
Proof.
  induction parts as [|p ps IH]; [left; split; [constructor | reflexivity]|].
  cbn [mapM map]. destruct (Nat.le_gt_cases (length p) 255) as [Hp | Hp].
  - unfold frame at 1 3. rewrite (bytes1_framed _ Hp). cbn [bind].
    destruct IH as [[F ->] | [E ->]].
    + left. split; [now constructor | reflexivity].
    + right. split; [now apply Exists_cons_tl | reflexivity].
  - right. rewrite (frame_long p Hp). split; [now apply Exists_cons_hd | reflexivity].
Qed.

Lemma frames_total_length (s : bytes) :
  length (concat (map framed (split Byte.eqb dot_byte s))) = length s + 1.
Proof.
  induction s as [|c s IH]; [reflexivity|]. cbn [split].
  pose proof (split_nonnil Byte.eqb dot_byte s) as Hn.
  destruct (Byte.eqb c dot_byte).
  - cbn [map concat]. rewrite length_app, IH. reflexivity.
  - destruct (split Byte.eqb dot_byte s) as [|p ps]; [now elim Hn|].
    cbn [map concat] in IH |- *. rewrite length_app in IH |- *.
    rewrite framed_length in IH |- *. cbn [length] in *. lia.
Qed.

(** X6: a name that encodes is given its wire form exactly when no
    dot-separated part is longer than 255 bytes, the 63-byte limit of DNS
    being nowhere enforced; a longer part makes [dnsname] raise
    [ValueError]. *)
Theorem dnsname_label_limit (host_name : str) (enc : bytes) :
  utf8_encode host_name = Ok enc ->
  (Forall (fun p => length p <= 255) (split Byte.eqb dot_byte enc)
   /\ dnsname host_name
      = Ok (concat (map framed (split Byte.eqb dot_byte enc)) ++ [x00]))
  \/ (List.Exists (fun p => 255 < length p) (split Byte.eqb dot_byte enc)
      /\ dnsname host_name = Raise ValueError).
Proof.
  intros E. rewrite dnsname_frames, E. cbn [bind].
  destruct (mapM_frame_cases (split Byte.eqb dot_byte enc ++ [[]]))
    as [[F ->] | [X ->]].
  - left. apply Forall_app in F as [F _]. split; [exact F|].
    cbn [bind]. now rewrite map_app, concat_app.
  - right. split; [|reflexivity].
    apply Exists_app in X as [X | X]; [exact X|].
    inversion X as [? ? H | ? ? H]; subst; [cbn in H; lia | inversion H].
Qed.

Lemma dnsname_label_limit_witness :
  (Forall (fun p => length p <= 255)
          (split Byte.eqb dot_byte [x61; x2e; x2e; x62])
   /\ dnsname (lit "a..b"%string)
      = Ok (concat (map framed (split Byte.eqb dot_byte [x61; x2e; x2e; x62]))
            ++ [x00]))
  \/ (List.Exists (fun p => 255 < length p)
             (split Byte.eqb dot_byte [x61; x2e; x2e; x62])
      /\ dnsname (lit "a..b"%string) = Raise ValueError).
Proof.
  apply (dnsname_label_limit (lit "a..b"%string) [x61; x2e; x2e; x62]).
  reflexivity.
Defined.

(** X7: whenever [dnsname] answers, the wire form is two bytes longer than
    the UTF-8 encoding of the name and ends in a zero byte. *)
Theorem dnsname_length (host_name : str) (wire : bytes) :
  dnsname host_name = Ok wire ->
  exists (enc body : bytes),
    utf8_encode host_name = Ok enc
    /\ wire = body ++ [x00]
    /\ length wire = length enc + 2.
Proof.
  intros D. destruct (utf8_encode host_name) as [enc|] eqn:E.
  - destruct (dnsname_label_limit host_name enc E) as [[_ W] | [_ W]];
      rewrite W in D; [|discriminate].
    apply Ok_inj in D. subst wire.
    exists enc, (concat (map framed (split Byte.eqb dot_byte enc))).
    repeat split. rewrite length_app, frames_total_length. cbn [length]. lia.
  - rewrite dnsname_frames, E in D. discriminate D.
Qed.

Lemma dnsname_length_witness :
  exists (enc body : bytes),
    utf8_encode (lit "abcdef.com"%string) = Ok enc
    /\ [x06; x61; x62; x63; x64; x65; x66; x03; x63; x6f; x6d; x00]
       = body ++ [x00]
    /\ length [x06; x61; x62; x63; x64; x65; x66; x03; x63; x6f; x6d; x00]
       = length enc + 2.
Proof.
  apply (dnsname_length (lit "abcdef.com"%string)
           [x06; x61; x62; x63; x64; x65; x66; x03; x63; x6f; x6d; x00]).
  reflexivity.
Defined.

(** ** The name a reply echoes *)

Lemma mapM_encode_decode (bs : list bytes) (names : list str) :
  mapM utf8_decode bs = Ok names -> mapM utf8_encode names = Ok bs.
Proof.
  intros E. apply mapM_Forall2 in E. apply Forall2_mapM.
  induction E as [|b s bs names Eb _ IH]; constructor; [|exact IH].
  now apply encode_decode.
Qed.

(** X8: for a question of type 1 and class 1 whose labels are non-empty, at
    most 255 bytes long, free of the dot byte and valid UTF-8, the name
    [parse_name] answers is encoded by [dnsname] to the very bytes of the
    question's name, so the success reply repeats them. *)
Theorem question_name_echoed (parts : list bytes) (names : list str)
    (rest : bytes) :
  parts <> [] ->
  Forall (fun b => 1 <= length b <= 255
                   /\ Forall (fun x => x <> dot_byte) b) parts ->
  mapM utf8_decode parts = Ok names ->
  parse_name (concat (map framed parts) ++ [x00; x00; x01; x00; x01] ++ rest)
  = Ok (Some (join [dot] names))
  /\ dnsname (join [dot] names) = Ok (concat (map framed parts) ++ [x00]).
Proof.
  intros Hn F M.
  assert (Z : Forall (fun b => 1 <= length b <= 255) parts).
  { eapply Forall_impl; [|exact F]. cbn. intros b [H _]. exact H. }
  assert (Fr : Forall (Forall (fun x => Byte.eqb x dot_byte = false)) parts).
  { eapply Forall_impl; [|exact F]. cbn. intros b [_ H].
    eapply Forall_impl; [|exact H]. cbn. intros x Hx.
    destruct (Byte.eqb x dot_byte) eqn:E; [|reflexivity].
    apply Byte.byte_dec_bl in E. now elim Hx. }
  split.
  - cbn [app].
    rewrite (parse_name_question parts x00 x01 x00 x01 rest Z), M. reflexivity.
  - pose proof (encode_join names parts (mapM_encode_decode parts names M)) as E.
    rewrite (dnsname_wire _ _ E);
      rewrite (split_join_fresh Byte.eqb dot_byte dot_byte_refl parts Hn Fr).
    + reflexivity.
    + eapply Forall_impl; [|exact Z]. cbn. intros b Hb. lia.
Qed.

Lemma question_name_echoed_witness :
  parse_name (concat (map framed [[x61; x62]; [x63]])
              ++ [x00; x00; x01; x00; x01] ++ [xff])
  = Ok (Some (join [dot] [lit "ab"%string; lit "c"%string]))
  /\ dnsname (join [dot] [lit "ab"%string; lit "c"%string])
     = Ok (concat (map framed [[x61; x62]; [x63]]) ++ [x00]).
Proof.
  apply (question_name_echoed [[x61; x62]; [x63]]
           [lit "ab"%string; lit "c"%string] [xff]).
  - discriminate.
  - repeat constructor; simpl; try lia; discriminate.
  - reflexivity.
Defined.

(** ** What [parse] reads and what it ignores *)

Lemma getitem_app (q extra : bytes) (o c : nat) :
  getitem q o = Ok c -> getitem (q ++ extra) o = Ok c /\ o < length q.
Proof.
  unfold getitem. destruct (nth_error q o) as [x|] eqn:E; [|discriminate].
  intros H. assert (L : o < length q) by (apply nth_error_Some; congruence).
  now rewrite nth_error_app1, E by exact L.
Qed.

Lemma slice_app_le {A : Type} (q extra : list A) (lo hi : nat) :
  hi <= length q -> slice (q ++ extra) lo hi = slice q lo hi.
Proof.
  intros H. unfold slice. destruct (Nat.le_gt_cases lo hi) as [L | L].
  - rewrite skipn_app. replace (lo - length q) with 0 by lia. cbn [skipn].
    rewrite firstn_app, length_skipn.
    replace (hi - lo - (length q - lo)) with 0 by lia. cbn [firstn].
    now rewrite app_nil_r.
  - replace (hi - lo) with 0 by lia. reflexivity.
Qed.

Lemma short_bytes_slice (q : bytes) (lo : nat) (n : Z) :
  short_bytes (slice q lo (lo + 2)) = Ok n -> lo + 2 <= length q.
Proof.
  unfold short_bytes. destruct (unpack_H _) as [m|] eqn:E; [|discriminate].
  intros _. assert (L : length (slice q lo (lo + 2)) = 2).
  { destruct (slice q lo (lo + 2)) as [|? [|? [|? ?]]]; try discriminate.
    reflexivity. }
  unfold slice in L. rewrite length_firstn, length_skipn in L. lia.
Qed.

Lemma parse_name_loop_in_bounds (fuel : nat) (q : bytes) (o : nat)
    (name : list str) (r : list str * nat) :
  parse_name_loop fuel q o name = Ok r -> o < length q.
Proof.
  destruct fuel; [discriminate|]. cbn [parse_name_loop].
  destruct (getitem q o) as [c|] eqn:G; [|discriminate].
  intros _. now apply (getitem_app q [] o c).
Qed.

Lemma parse_name_loop_final (fuel : nat) (q : bytes) :
  forall (o : nat) (name names : list str) (final : nat),
    parse_name_loop fuel q o name = Ok (names, final) -> final < length q.
Proof.
  induction fuel as [|fuel IH]; intros o name names final; [discriminate|].
  cbn [parse_name_loop].
  destruct (getitem q o) as [c|] eqn:G; [|discriminate]. cbn [bind].
  destruct (Nat.eqb c 0).
  - intros [= _ <-]. now apply (getitem_app q [] o c).
  - destruct (utf8_decode _); [|discriminate]. cbn [bind]. apply IH.
Qed.

Lemma parse_name_loop_extend (q extra : bytes) (fuel : nat) :
  forall (o : nat) (name : list str) (r : list str * nat),
    parse_name_loop fuel q o name = Ok r ->
    forall fuel2 : nat,
      length (q ++ extra) <= o + fuel2 ->
      parse_name_loop fuel2 (q ++ extra) o name = Ok r.
Proof.
  induction fuel as [|fuel IH]; intros o name r; [discriminate|].
  cbn [parse_name_loop].
  destruct (getitem q o) as [c|] eqn:G; [|discriminate]. cbn [bind].
  destruct (getitem_app q extra o c G) as [G' L].
  intros H fuel2 Hf. rewrite length_app in Hf.
  destruct fuel2 as [|fuel2]; [lia|].
  cbn [parse_name_loop]. rewrite G'. cbn [bind].
  destruct (Nat.eqb c 0); [exact H|].
  destruct (utf8_decode (slice q (o + 1) (o + 1 + c))) as [label|] eqn:D;
    [|discriminate].
  cbn [bind] in H. pose proof (parse_name_loop_in_bounds _ _ _ _ _ H) as B.
  rewrite slice_app_le by lia. rewrite D. cbn [bind].
  apply (IH _ _ _ H). rewrite length_app. lia.
Qed.

Lemma parse_name_extend (q extra : bytes) (r : option str) :
  parse_name q = Ok r -> parse_name (q ++ extra) = Ok r.
Proof.
  unfold parse_name.
  destruct (parse_name_loop (length q) q 0 []) as [[names final]|] eqn:L;
    [|discriminate].
  rewrite (parse_name_loop_extend q extra _ _ _ _ L (length (q ++ extra)))
    by lia.
  cbn [bind].
  destruct (short_bytes (slice q (final + 1) (final + 3))) as [t|] eqn:T;
    [|discriminate].
  cbn [bind].
  destruct (short_bytes (slice q (final + 3) (final + 5))) as [c|] eqn:C;
    [|discriminate].
  cbn [bind]. intros H.
  pose proof (short_bytes_slice q (final + 3) c) as B.
  replace (final + 3 + 2) with (final + 5) in B by lia. specialize (B C).
  rewrite !slice_app_le by lia. now rewrite T, C.
Qed.

Lemma bind_Ok_inv {A B : Type} (m : result A) (f : A -> result B) (b : B) :
  bind m f = Ok b -> exists a, m = Ok a /\ f a = Ok b.
Proof. destruct m as [a|]; [|discriminate]. cbn. now exists a. Qed.

Lemma parse_long_enough (query : bytes) (r : option str * Z) :
  parse query = Ok r -> 12 <= length query.
Proof.
  intros P. destruct (Nat.le_gt_cases 12 (length query)) as [H | H]; [exact H|].
  rewrite (parse_short_header query H) in P. discriminate P.
Qed.

(** X9: whatever follows a question that [parse] has answered is never
    read: appending bytes to the datagram leaves the answer as it is. *)
Theorem parse_ignores_what_follows (query extra : bytes)
    (r : option str * Z) :
  parse query = Ok r -> parse (query ++ extra) = Ok r.
Proof.
  intros P. pose proof (parse_long_enough query r P) as H.
  do 12 (destruct query as [|? query]; [cbn in H; lia|]). clear H.
  cbn [app].
  match goal with
  | |- parse (?t1 :: ?t2 :: ?f1 :: ?f2 :: ?c1 :: ?c2 :: ?c3 :: ?c4
               :: ?c5 :: ?c6 :: ?c7 :: ?c8 :: _) = _ =>
    pose proof (parse_header t1 t2 f1 f2 [c1; c2; c3; c4; c5; c6; c7; c8]
                  query eq_refl) as P1;
    pose proof (parse_header t1 t2 f1 f2 [c1; c2; c3; c4; c5; c6; c7; c8]
                  (query ++ extra) eq_refl) as P2
  end.
  cbn [app] in P1, P2. rewrite P1 in P. rewrite P2.
  destruct (standard _); [|exact P].
  apply bind_Ok_inv in P as (parsed & N & E).
  now rewrite (parse_name_extend query extra parsed N).
Qed.

Lemma parse_ignores_what_follows_witness :
  parse (query_for 0x1234 0x100 example_net ++ [x00; x00; x29; x10; x00])
  = Ok (Some example_net, 0x1234%Z).
Proof.
  apply (parse_ignores_what_follows (query_for 0x1234 0x100 example_net)
           [x00; x00; x29; x10; x00] (Some example_net, 0x1234%Z)).
  vm_compute. reflexivity.
Defined.

(** X10: the four counts of the header are read and then ignored: any
    eight bytes in their place give the same answer, or the same
    exception. *)
Theorem parse_ignores_counts (t1 t2 f1 f2 : byte) (counts counts' body : bytes) :
  length counts = 8 -> length counts' = 8 ->
  parse (t1 :: t2 :: f1 :: f2 :: counts ++ body)
  = parse (t1 :: t2 :: f1 :: f2 :: counts' ++ body).
Proof.
  intros H H'.
  now rewrite (parse_header t1 t2 f1 f2 counts body H),
              (parse_header t1 t2 f1 f2 counts' body H').
Qed.

Lemma parse_ignores_counts_witness :
  parse (x12 :: x34 :: x01 :: x00 :: [x00; x01; x00; x00; x00; x00; x00; x00]
           ++ [x01; x61; x00; x00; x01; x00; x01])
  = parse (x12 :: x34 :: x01 :: x00 :: [x00; x00; xff; xff; x00; x07; x00; x09]
             ++ [x01; x61; x00; x00; x01; x00; x01]).
Proof.
  apply (parse_ignores_counts x12 x34 x01 x00
           [x00; x01; x00; x00; x00; x00; x00; x00]
           [x00; x00; xff; xff; x00; x07; x00; x09]
           [x01; x61; x00; x00; x01; x00; x01]); reflexivity.
Defined.

(** ** The exceptions of the serving loop *)

Lemma short_bytes_raises (b : bytes) (e : exn) :
  short_bytes b = Raise e -> e = StructError.
Proof. unfold short_bytes. destruct (unpack_H b); [discriminate | congruence]. Qed.

Lemma parse_name_loop_raises (fuel : nat) (q : bytes) :
  forall (o : nat) (name : list str) (e : exn),
    parse_name_loop fuel q o name = Raise e ->
    e = IndexError \/ e = UnicodeDecodeError.
Proof.
  induction fuel as [|fuel IH]; intros o name e.
  - intros [= <-]. now left.
  - cbn [parse_name_loop]. unfold getitem.
    destruct (nth_error q o); cbn [bind]; [|intros [= <-]; now left].
    destruct (Nat.eqb _ 0); [discriminate|].
    destruct (utf8_decode _) as [label|] eqn:D; cbn [bind]; [apply IH|].
    intros [= <-]. right.
    now apply (utf8_decode_raises_bounded _ _ _ (le_n _) D).
Qed.

Lemma parse_name_raises (q : bytes) (e : exn) :
  parse_name q = Raise e ->
  e = StructError \/ e = IndexError \/ e = UnicodeDecodeError.
Proof.
  unfold parse_name.
  destruct (parse_name_loop (length q) q 0 []) as [[names final]|] eqn:L;
    cbn [bind].
  - destruct (short_bytes (slice q (final + 1) (final + 3))) eqn:T; cbn [bind].
    + destruct (short_bytes (slice q (final + 3) (final + 5))) eqn:C;
        cbn [bind]; [discriminate|].
      intros [= <-]. left. now apply (short_bytes_raises _ _ C).
    + intros [= <-]. left. now apply (short_bytes_raises _ _ T).
  - intros [= <-]. right. now apply (parse_name_loop_raises _ _ _ _ _ L).
Qed.

Lemma parse_raises (query : bytes) (e : exn) :
  parse query = Raise e ->
  e = StructError \/ e = IndexError \/ e = UnicodeDecodeError.
Proof.
  destruct (Nat.le_gt_cases 12 (length query)) as [H | H].
  - do 12 (destruct query as [|? query]; [cbn in H; lia|]). clear H.
    match goal with
    | |- parse (?t1 :: ?t2 :: ?f1 :: ?f2 :: ?c1 :: ?c2 :: ?c3 :: ?c4
                 :: ?c5 :: ?c6 :: ?c7 :: ?c8 :: _) = _ -> _ =>
      pose proof (parse_header t1 t2 f1 f2 [c1; c2; c3; c4; c5; c6; c7; c8]
                    query eq_refl) as P
    end.
    cbn [app] in P. rewrite P. destruct (standard _); [|discriminate].
    destruct (parse_name query) eqn:N; cbn [bind]; [discriminate|].
    intros [= <-]. now apply (parse_name_raises query).
  - rewrite (parse_short_header query H). intros [= <-]. now left.
Qed.

(** X11: the serving loop can only be ended by [struct.error],
    [IndexError] or [UnicodeDecodeError], each raised while parsing a
    datagram; building and sending a reply never raises. *)
Theorem dnsbl_crash_kinds (cfg : config) (fs : str -> bool)
    (inbox : list (bytes * address)) (loop : Z) (e : exn) :
  fst (dnsbl cfg fs loop inbox) = Crashed e ->
  (e = StructError \/ e = IndexError \/ e = UnicodeDecodeError)
  /\ exists (datagram : bytes) (sender : address),
       In (datagram, sender) inbox /\ parse (firstn 512 datagram) = Raise e.
Proof.
  revert loop. induction inbox as [|[datagram sender] inbox IH]; intros loop;
    cbn [dnsbl].
  - destruct (0 <? loop)%Z; discriminate.
  - destruct (0 <? loop)%Z; [|discriminate]. cbv zeta.
    destruct (parse (firstn 512 datagram)) as [[parsed txid]|e'] eqn:P.
    + destruct (reply_after_parse cfg fs _ _ _ P) as [rest E].
      destruct (reply cfg fs txid parsed) as [[response|e''] t];
        cbn [fst] in E; [|discriminate].
      specialize (IH (loop - 1)%Z).
      destruct (dnsbl cfg fs (loop - 1) inbox) as [o t']. cbn [fst] in *.
      intros H. destruct (IH H) as (K & d & s & Hin & Hp).
      split; [exact K|]. exists d, s. split; [now right | exact Hp].
    + cbn [fst]. intros [= <-]. split; [now apply (parse_raises _ _ P)|].
      exists datagram, sender. split; [now left | exact P].
Qed.

Lemma dnsbl_crash_kinds_witness :
  (UnicodeDecodeError = StructError \/ UnicodeDecodeError = IndexError
   \/ UnicodeDecodeError = UnicodeDecodeError)
  /\ exists (datagram : bytes) (sender : address),
       In (datagram, sender)
          [(query_for 0x1234 0x100 example_net, localhost6);
           (header 0x0007 0x120 ++ [x01; xff; x00; x00; x01; x00; x01],
            localhost6)]
       /\ parse (firstn 512 datagram) = Raise UnicodeDecodeError.
Proof.
  apply (dnsbl_crash_kinds default_config (fun _ => false)
           [(query_for 0x1234 0x100 example_net, localhost6);
            (header 0x0007 0x120 ++ [x01; xff; x00; x00; x01; x00; x01],
             localhost6)] 5 UnicodeDecodeError).
  vm_compute. reflexivity.
Defined.

(** ** The serving loop, datagram by datagram *)

Lemma sends_app (a b : list event) : sends (a ++ b) = sends a ++ sends b.
Proof.
  induction a as [|[p|d s] a IH]; cbn [app sends]; [reflexivity | exact IH|].
  now rewrite IH.
Qed.

Lemma reply_sends_nothing (cfg : config) (fs : str -> bool) (txid : Z)
    (lookup : option str) :
  (0 <= txid <= 65535)%Z -> sends (snd (reply cfg fs txid lookup)) = [].
Proof.
  intros R. rewrite (reply_cases cfg fs txid lookup R).
  destruct lookup as [[|c l]|]; try reflexivity.
  cbv zeta. now destruct (fs _).
Qed.

(** One turn of the loop on a datagram that parses. *)
Lemma dnsbl_turn (cfg : config) (fs : str -> bool) (loop : Z)
    (datagram : bytes) (sender : address) (inbox : list (bytes * address))
    (r : option str * Z) :
  (0 < loop)%Z -> parse (firstn 512 datagram) = Ok r ->
  exists response : bytes,
    answer cfg fs datagram = Ok response
    /\ fst (dnsbl cfg fs loop ((datagram, sender) :: inbox))
       = fst (dnsbl cfg fs (loop - 1) inbox)
    /\ sends (snd (dnsbl cfg fs loop ((datagram, sender) :: inbox)))
       = (response, sender) :: sends (snd (dnsbl cfg fs (loop - 1) inbox)).
Proof.
  intros H P. destruct r as [parsed txid].
  destruct (parse_inv _ _ _ P) as (R & _).
  destruct (reply_after_parse cfg fs _ _ _ P) as [rest E].
  pose proof (reply_sends_nothing cfg fs txid parsed R) as S.
  unfold answer. cbn [dnsbl]. rewrite (proj2 (Z.ltb_lt 0 loop) H). cbv zeta.
  rewrite P.
  destruct (reply cfg fs txid parsed) as [[response|e] t]; cbn [fst snd] in *;
    [|discriminate].
  exists response. split; [reflexivity|].
  destruct (dnsbl cfg fs (loop - 1) inbox) as [o t']. cbn [fst snd].
  split; [reflexivity|].
  rewrite sends_app, S. reflexivity.
Qed.

(** X12: when every datagram of the inbox parses, the loop answers the
    first [loop] of them, one reply each, in their order and to their
    senders; it exits once [loop] datagrams are answered and otherwise ends
    up waiting in [recvfrom]. *)
Theorem dnsbl_answers_in_order (cfg : config) (fs : str -> bool)
    (inbox : list (bytes * address)) (loop : Z) :
  Forall (fun d => exists r, parse (firstn 512 (fst d)) = Ok r) inbox ->
  fst (dnsbl cfg fs loop inbox)
  = (if (Z.of_nat (length inbox) <? loop)%Z then Blocked else Exited)
  /\ Forall2 (fun d s => answer cfg fs (fst d) = Ok (fst s) /\ snd s = snd d)
             (firstn (Z.to_nat loop) inbox)
             (sends (snd (dnsbl cfg fs loop inbox))).
Proof.
  intros F. revert loop.
  induction F as [|[datagram sender] inbox [r P] _ IH]; intros loop.
  - cbn [dnsbl length]. rewrite firstn_nil. change (Z.of_nat 0) with 0%Z.
    destruct (0 <? loop)%Z; split; constructor.
  - destruct (Z.ltb_spec 0 loop) as [H | H].
    + destruct (dnsbl_turn cfg fs loop datagram sender inbox r H P)
        as (response & A & O & Hs).
      destruct (IH (loop - 1)%Z) as [IO IS]. unfold bytes in *.
      rewrite O, Hs, IO. split.
      * cbn [length].
        destruct (Z.ltb_spec (Z.of_nat (length inbox)) (loop - 1)),
                 (Z.ltb_spec (Z.of_nat (S (length inbox))) loop);
          (reflexivity || lia).
      * replace (Z.to_nat loop) with (S (Z.to_nat (loop - 1))) by lia.
        cbn [firstn]. constructor; [now split | exact IS].
    + cbn [dnsbl]. rewrite (proj2 (Z.ltb_ge 0 loop) H). cbn [fst snd sends].
      replace (Z.to_nat loop) with 0 by lia. cbn [firstn]. split; [|constructor].
      match goal with |- context [(?a <? loop)%Z] =>
        destruct (Z.ltb_spec a loop) as [L | L]
      end; [cbn [length] in L; lia | reflexivity].
Qed.

Lemma dnsbl_answers_in_order_witness :
  fst (dnsbl default_config (fun _ => false) 2
         [(query_for 0x1234 0x100 example_net, localhost6);
          (query_for 0x0001 0x101 mail_example_org, localhost6);
          (query_for 0x0002 0x120 example_net, localhost6)])
  = (if (Z.of_nat 3 <? 2)%Z then Blocked else Exited)
  /\ Forall2 (fun d s => answer default_config (fun _ => false) (fst d)
                         = Ok (fst s) /\ snd s = snd d)
             (firstn (Z.to_nat 2)
                [(query_for 0x1234 0x100 example_net, localhost6);
                 (query_for 0x0001 0x101 mail_example_org, localhost6);
                 (query_for 0x0002 0x120 example_net, localhost6)])
             (sends (snd (dnsbl default_config (fun _ => false) 2
                [(query_for 0x1234 0x100 example_net, localhost6);
                 (query_for 0x0001 0x101 mail_example_org, localhost6);
                 (query_for 0x0002 0x120 example_net, localhost6)]))).
Proof.
  apply (dnsbl_answers_in_order default_config (fun _ => false)
           [(query_for 0x1234 0x100 example_net, localhost6);
            (query_for 0x0001 0x101 mail_example_org, localhost6);
            (query_for 0x0002 0x120 example_net, localhost6)] 2).
  repeat constructor; eexists; vm_compute; reflexivity.
Defined.

(** X13: the first datagram that fails to parse ends the loop with its
    exception; the datagrams before it have been answered, each to its
    sender, and none after it is ever received. *)
Theorem dnsbl_stops_at_first_failure (cfg : config) (fs : str -> bool)
    (good : list (bytes * address)) (bad : bytes) (sender : address)
    (rest : list (bytes * address)) (loop : Z) (e : exn) :
  Forall (fun d => exists r, parse (firstn 512 (fst d)) = Ok r) good ->
  parse (firstn 512 bad) = Raise e ->
  (Z.of_nat (length good) < loop)%Z ->
  fst (dnsbl cfg fs loop (good ++ (bad, sender) :: rest)) = Crashed e
  /\ Forall2 (fun d s => answer cfg fs (fst d) = Ok (fst s) /\ snd s = snd d)
             good
             (sends (snd (dnsbl cfg fs loop (good ++ (bad, sender) :: rest)))).
Proof.
  intros F B. revert loop.
  induction F as [|[datagram from] good [r P] _ IH]; intros loop H.
  - cbn [length] in H. cbn [app].
    rewrite (dnsbl_raises cfg fs loop bad sender rest e) by (lia || exact B).
    split; constructor.
  - cbn [length] in H. cbn [app].
    destruct (dnsbl_turn cfg fs loop datagram from
                (good ++ (bad, sender) :: rest) r) as (response & A & O & Hs);
      [lia | exact P |].
    destruct (IH (loop - 1)%Z) as [IO IS]; [lia|]. unfold bytes in *.
    rewrite O, Hs, IO. split; [reflexivity|].
    constructor; [now split | exact IS].
Qed.

Lemma dnsbl_stops_at_first_failure_witness :
  fst (dnsbl default_config (fun _ => true) 9
         ([(query_for 0x1234 0x100 example_net, localhost6)]
          ++ ([x00; x01; x01], localhost6)
          :: [(query_for 0x0002 0x100 example_net, localhost6)]))
  = Crashed StructError
  /\ Forall2 (fun d s => answer default_config (fun _ => true) (fst d)
                         = Ok (fst s) /\ snd s = snd d)
             [(query_for 0x1234 0x100 example_net, localhost6)]
             (sends (snd (dnsbl default_config (fun _ => true) 9
                ([(query_for 0x1234 0x100 example_net, localhost6)]
                 ++ ([x00; x01; x01], localhost6)
                 :: [(query_for 0x0002 0x100 example_net, localhost6)])))).
Proof.
  apply (dnsbl_stops_at_first_failure default_config (fun _ => true)
           [(query_for 0x1234 0x100 example_net, localhost6)]
           [x00; x01; x01] localhost6
           [(query_for 0x0002 0x100 example_net, localhost6)] 9 StructError).
  - repeat constructor. eexists. vm_compute. reflexivity.
  - reflexivity.
  - simpl. lia.
Defined.

(** ** The path [reply] looks up *)

Lemma lookups_reply (cfg : config) (fs : str -> bool) (txid : Z) (name : str) :
  (0 <= txid <= 65535)%Z -> name <> [] ->
  lookups (snd (reply cfg fs txid (Some name)))
  = [os_path_join (DNSBL_DIRECTORY cfg) name].
Proof.
  intros R Hn. rewrite (reply_cases cfg fs txid (Some name) R).
  destruct name as [|c l]; [now elim Hn|]. cbv zeta. now destruct (fs _).
Qed.

(** X14: the store directory does not confine the lookup.  A queried name
    that begins with a slash is looked up as the absolute path it spells,
    whatever [DNSBL_DIRECTORY] is, and it is answered with success exactly
    when that path exists. *)
Theorem absolute_name_leaves_directory (cfg : config) (fs : str -> bool)
    (query : bytes) (name : str) (txid : Z) :
  parse query = Ok (Some (slash :: name), txid) ->
  lookups (snd (reply cfg fs txid (Some (slash :: name)))) = [slash :: name]
  /\ exists wire : bytes,
       dnsname (slash :: name) = Ok wire
       /\ fst (reply cfg fs txid (Some (slash :: name)))
          = Ok (if fs (slash :: name) then found_reply txid wire
                else nxdomain_reply txid).
Proof.
  intros P. destruct (parse_inv _ _ _ P) as (R & _ & flags & _ & Hp).
  destruct (standard flags); [|discriminate].
  destruct (parse_name_sendable _ _ Hp) as [wire D].
  split.
  - now rewrite lookups_reply by (assumption || discriminate).
  - exists wire. split; [exact D|].
    rewrite (reply_cases cfg fs txid _ R). cbv zeta.
    change (os_path_join (DNSBL_DIRECTORY cfg) (slash :: name))
      with (slash :: name).
    destruct (fs (slash :: name)); [now rewrite D | reflexivity].
Qed.

Lemma absolute_name_leaves_directory_witness :
  lookups (snd (reply default_config (fs_only (lit "/etc/passwd"%string))
                  0x1234 (Some (slash :: lit "etc/passwd"%string))))
  = [slash :: lit "etc/passwd"%string]
  /\ exists wire : bytes,
       dnsname (slash :: lit "etc/passwd"%string) = Ok wire
       /\ fst (reply default_config (fs_only (lit "/etc/passwd"%string))
                 0x1234 (Some (slash :: lit "etc/passwd"%string)))
          = Ok (if fs_only (lit "/etc/passwd"%string)
                     (slash :: lit "etc/passwd"%string)
                then found_reply 0x1234 wire
                else nxdomain_reply 0x1234).
Proof.
  apply (absolute_name_leaves_directory default_config
           (fs_only (lit "/etc/passwd"%string))
           (query_for 0x1234 0x100 (lit "/etc/passwd"%string))
           (lit "etc/passwd"%string) 0x1234).
  vm_compute. reflexivity.
Defined.
